(** * Falcon AI: the Express backend (server.js) and the React session
      store (App.jsx), embedded shallowly.

    Layout:
    - [JS]      the fragment of JavaScript values and string operations the
                two programs use (JSON values, truthiness, property access,
                [trim], [replace(/\s+/g, " ")], template-literal conversion);
    - [Server]  the routes of server.js as functions of a request and of the
                answers of the outside world (database, bcrypt, jwt, the
                provider SDKs, fetch), returning the response and the list of
                outside calls made;
    - [Client]  the chat collection of App.jsx and the handlers
                [clearCurrentChat] and [sendMessage] as state transformers. *)

From Stdlib Require Import String Ascii NArith DecimalString.
From stdpp Require Import base option list numbers.

Local Open Scope N_scope.
#[local] Set Warnings "-register-all".

(* ===================================================================== *)
(** ** JavaScript values *)
(* ===================================================================== *)

Module JS.

(** A JavaScript string is a sequence of UTF-16 code units; [length],
    [slice] and [trim] all count code units. *)
Definition jsstring := list N.

(** An ASCII literal of the source, as code units. *)
Definition lit (s : string) : jsstring :=
  N_of_ascii <$> list_ascii_of_string s.
Arguments lit : simpl never.

(** The values JSON.parse can produce, plus [undefined].  A number is kept
    as its canonical ToString rendering: the programs only test numbers for
    truthiness and print them. *)
Inductive value : Type :=
| Undefined
| Null
| Bool (b : bool)
| Num (repr : jsstring)
| Str (s : jsstring)
| Arr (items : list value)
| Obj (fields : list (jsstring * value)).

(** What a [throw] carries: a TypeError raised by the engine itself, or any
    value raised by a library. *)
Inductive exn : Type :=
| TypeError
| Thrown (v : value).

Inductive result (A : Type) : Type :=
| Ok (a : A)
| Throw (e : exn).
Arguments Ok {A} a.
Arguments Throw {A} e.

#[global] Instance result_ret : MRet result := λ A a, Ok a.
#[global] Instance result_bind : MBind result := λ A B f m,
  match m with
  | Ok a => f a
  | Throw e => Throw e
  end.

(** [try { m } catch (err) { h err }] *)
Definition try_catch {A} (m : result A) (h : exn → result A) : result A :=
  match m with
  | Ok a => Ok a
  | Throw e => h e
  end.

Definition streq (s t : jsstring) : bool := bool_decide (s = t).

(** ToBoolean. *)
Definition truthy (v : value) : bool :=
  match v with
  | Undefined | Null => false
  | Bool b => b
  | Num r => negb (streq r (lit "0") || streq r (lit "NaN"))
  | Str s => negb (streq s [])
  | Arr _ | Obj _ => true
  end.

(** [a || b] on values already evaluated. *)
Definition or_else (a b : value) : value := if truthy a then a else b.

(** [a ?? b] *)
Definition nullish (v : value) : bool :=
  match v with
  | Undefined | Null => true
  | _ => false
  end.
Definition coalesce (a b : value) : value := if nullish a then b else a.

(** [v === "s"] against a string literal. *)
Definition strict_eq_str (v : value) (s : jsstring) : bool :=
  match v with
  | Str t => streq t s
  | _ => false
  end.

(** Own-property lookup in an object literal or a parsed JSON object (whose
    keys are distinct). *)
Fixpoint lookup_field (k : jsstring) (fs : list (jsstring * value)) : value :=
  match fs with
  | [] => Undefined
  | (k', v) :: fs' => if streq k' k then v else lookup_field k fs'
  end.

Definition has_field (k : jsstring) (fs : list (jsstring * value)) : bool :=
  existsb (λ kv, streq kv.1 k) fs.

Definition keys (fs : list (jsstring * value)) : list jsstring := fst <$> fs.

(** [v.k] for the property names the programs read (none of them is an
    index, [length], or a name found on a prototype): only objects have
    them; reading a property of [undefined] or [null] throws. *)
Definition get_field (v : value) (k : jsstring) : result value :=
  match v with
  | Undefined | Null => Throw TypeError
  | Obj fs => Ok (lookup_field k fs)
  | _ => Ok Undefined
  end.

(** [v?.k] *)
Definition get_field_opt (v : value) (k : jsstring) : value :=
  match v with
  | Obj fs => lookup_field k fs
  | _ => Undefined
  end.

(** [v[0]]: first element of an array, first code unit of a string, the
    property named "0" of an object. *)
Definition at0 (v : value) : result value :=
  match v with
  | Undefined | Null => Throw TypeError
  | Arr l => Ok (default Undefined (head l))
  | Str s => Ok (from_option (λ c, Str [c]) Undefined (head s))
  | Obj fs => Ok (lookup_field (lit "0") fs)
  | _ => Ok Undefined
  end.

(** [v?.[0]] *)
Definition at0_opt (v : value) : value :=
  match at0 v with
  | Ok x => x
  | Throw _ => Undefined
  end.

(** [Array.isArray(v) && v.length > 0], and its use as a list. *)
Definition nonempty_array (v : value) : option (list value) :=
  match v with
  | Arr (x :: l) => Some (x :: l)
  | _ => None
  end.

(** *** Strings *)

(** WhiteSpace and LineTerminator code units of ECMAScript: what
    [String.prototype.trim] strips and what [\s] matches. *)
Definition is_whitespace (c : N) : bool :=
  (c =? 0x09) || (c =? 0x0A) || (c =? 0x0B) || (c =? 0x0C) || (c =? 0x0D)
  || (c =? 0x20) || (c =? 0xA0) || (c =? 0x1680)
  || ((0x2000 <=? c) && (c <=? 0x200A))
  || (c =? 0x2028) || (c =? 0x2029) || (c =? 0x202F) || (c =? 0x205F)
  || (c =? 0x3000) || (c =? 0xFEFF).

Fixpoint trim_start (s : jsstring) : jsstring :=
  match s with
  | [] => []
  | c :: s' => if is_whitespace c then trim_start s' else s
  end.

Definition trim_end (s : jsstring) : jsstring :=
  reverse (trim_start (reverse s)).

(** [s.trim()] *)
Definition trim (s : jsstring) : jsstring := trim_end (trim_start s).

(** [s.replace(/\s+/g, " ")]: every maximal run of whitespace becomes one
    space.  [in_run] tells that the previous code unit was whitespace. *)
Fixpoint replace_ws_runs (in_run : bool) (s : jsstring) : jsstring :=
  match s with
  | [] => []
  | c :: s' =>
      if is_whitespace c
      then (if in_run then replace_ws_runs true s'
            else 0x20 :: replace_ws_runs true s')
      else c :: replace_ws_runs false s'
  end.

Definition collapse_whitespace (s : jsstring) : jsstring :=
  replace_ws_runs false s.

(** [s.slice(0, n)] *)
Definition slice0 (n : nat) (s : jsstring) : jsstring := take n s.

(** [s.startsWith(p)] *)
Fixpoint startsWith (p s : jsstring) : bool :=
  match p, s with
  | [], _ => true
  | _ :: _, [] => false
  | a :: p', b :: s' => (a =? b) && startsWith p' s'
  end.

(** [v.trim()] as a method call on an arbitrary value: only strings have
    the method. *)
Definition call_trim (v : value) : result value :=
  match v with
  | Str s => Ok (Str (trim s))
  | _ => Throw TypeError
  end.

(** [l.join(sep)] on strings already converted. *)
Fixpoint join (sep : jsstring) (l : list jsstring) : jsstring :=
  match l with
  | [] => []
  | [s] => s
  | s :: l' => s ++ sep ++ join sep l'
  end.

(** ToString, as a template literal applies it.  An array prints its
    elements joined by commas, with [undefined] and [null] printed empty; an
    object prints [[object Object]] unless JSON gave it an own (hence not
    callable) [toString], in which case the conversion throws. *)
Fixpoint to_string (v : value) : result jsstring :=
  match v with
  | Undefined => Ok (lit "undefined")
  | Null => Ok (lit "null")
  | Bool true => Ok (lit "true")
  | Bool false => Ok (lit "false")
  | Num r => Ok r
  | Str s => Ok s
  | Arr l =>
      (fix elems (l : list value) : result (list jsstring) :=
         match l with
         | [] => Ok []
         | x :: l' =>
             match (if nullish x then Ok [] else to_string x) with
             | Ok s =>
                 match elems l' with
                 | Ok ss => Ok (s :: ss)
                 | Throw e => Throw e
                 end
             | Throw e => Throw e
             end
         end) l ≫= λ ss, Ok (join (lit ",") ss)
  | Obj fs =>
      if has_field (lit "toString") fs then Throw TypeError
      else Ok (lit "[object Object]")
  end.

(** [Date.now().toString()] and the like: a natural number in decimal. *)
Definition decimal (n : N) : jsstring :=
  lit (NilZero.string_of_uint (N.to_uint n)).

End JS.

(* ===================================================================== *)
(** ** The backend: server.js *)
(* ===================================================================== *)

Module Server.
Import JS.

(** The paths server.js registers a route for. *)
Inductive endpoint : Type :=
| ApiHealth          (* /api/health *)
| ApiAuthRegister    (* /api/auth/register *)
| ApiAuthLogin       (* /api/auth/login *)
| ApiToolsWeather    (* /api/tools/weather *)
| ApiChat            (* /api/chat *)
| ApiImageGenerate.  (* /api/image/generate *)

(** An incoming HTTP request, after [express.json()] has parsed the body
    ([{}] when there is none; a body that does not parse never reaches a
    route).  [path] is the registered path Express's matcher finds for the
    request URL, if any. *)
Record request : Type := {
  method : jsstring;
  path : option endpoint;
  authorization : option jsstring;   (* req.headers.authorization *)
  body : value;                      (* req.body *)
}.

(** [res.status(s).json(v)]; [json] is the value handed to [res.json]
    ([Undefined] for a response without a JSON body). *)
Record response : Type := {
  status : N;
  json : value;
}.

(** A call of node-fetch; [fetch_body] is the value given to
    [JSON.stringify] ([Undefined] when no body is sent). *)
Record fetch_request : Type := {
  url : jsstring;
  fetch_method : jsstring;
  fetch_authorization : option jsstring;
  fetch_body : value;
}.

(** What the awaited pieces of a fetch response evaluate to. *)
Record fetch_response : Type := {
  upstream_status : N;                (* res.status *)
  res_json : result value;            (* await res.json() *)
  res_text : result value;            (* await res.text() *)
  res_arrayBuffer : result (list N);  (* await res.arrayBuffer() *)
}.

(** [res.ok]: the status is in the range 200-299. *)
Definition ok (r : fetch_response) : bool :=
  (200 <=? upstream_status r) && (upstream_status r <=? 299).

(** The calls that leave the process. *)
Inductive call : Type :=
| DbFindOne (query : value)                 (* User.findOne *)
| DbCreate (doc : value)                    (* User.create *)
| Fetch (r : fetch_request)                 (* fetch *)
| GroqCreate (args : value)                 (* groqClient.chat.completions.create *)
| DeepseekCreate (args : value)             (* deepseekClient.chat.completions.create *)
| GeminiGenerate (model prompt : jsstring). (* model.generateContent *)

(** The calls that reach a third-party API (everything but the database). *)
Definition is_upstream (c : call) : bool :=
  match c with
  | DbFindOne _ | DbCreate _ => false
  | _ => true
  end.

(** Everything server.js does not define itself: the engine's library
    functions that are not modelled, the environment, the libraries, and the
    answers of the remote services, each as a function of the call's
    arguments. *)
Record World : Type := {
  type_error_message : jsstring;               (* .message of an engine TypeError *)
  toUpperCase : jsstring → jsstring;           (* String.prototype.toUpperCase *)
  encodeURIComponent : jsstring → result jsstring;
  JSON_stringify : value → value;
  base64 : list N → jsstring;                  (* Buffer.from(b).toString("base64") *)
  env : jsstring → option jsstring;            (* process.env.NAME, when set *)
  bcrypt_hash : value → N → result value;
  bcrypt_compare : value → value → result bool;
  jwt_sign : value → value → value → result value;
  jwt_verify : jsstring → value → result value;
  User_findOne : value → result value;
  User_create : value → result value;
  fetch : fetch_request → result fetch_response;
  groq_create : value → result value;
  deepseek_create : value → result value;
  gemini_text : jsstring → jsstring → result value; (* (await generateContent(p)).response.text() *)
}.

(** Handlers run in the exception monad with a log of outside calls. *)
Definition M (A : Type) : Type := (result A * list call)%type.

#[global] Instance M_ret : MRet M := λ A a, (Ok a, []).
#[global] Instance M_bind : MBind M := λ A B f m,
  match m with
  | (Ok a, t) => let '(r, t') := f a in (r, t ++ t')
  | (Throw e, t) => (Throw e, t)
  end.

Definition lift {A} (r : result A) : M A := (r, []).

(** An outside call: logged, then answered. *)
Definition perform {A} (c : call) (answer : result A) : M A := (answer, [c]).

(** [try { m } catch (err) { h err }] *)
Definition catch {A} (m : M A) (h : exn → M A) : M A :=
  match m with
  | (Ok a, t) => (Ok a, t)
  | (Throw e, t) => let '(r, t') := h e in (r, t ++ t')
  end.

Definition outcome {A} (m : M A) : result A := m.1.
Definition calls {A} (m : M A) : list call := m.2.
Definition upstream_calls {A} (m : M A) : list call :=
  filter (λ c, is_upstream c = true) (calls m).

Definition respond (s : N) (v : value) : M response :=
  mret {| status := s; json := v |}.

Definition error_body (msg : value) : value := Obj [(lit "error", msg)].

(** [process.env.NAME] as a value, and as a template literal prints it. *)
Definition env_value (w : World) (name : jsstring) : value :=
  from_option Str Undefined (env w name).
Definition env_text (w : World) (name : jsstring) : jsstring :=
  default (lit "undefined") (env w name).

(** The value [err] is bound to in a [catch] clause. *)
Definition caught (w : World) (e : exn) : value :=
  match e with
  | TypeError => Obj [(lit "message", Str (type_error_message w))]
  | Thrown v => v
  end.

(** [v.toUpperCase()] on an arbitrary value. *)
Definition call_toUpperCase (w : World) (v : value) : result jsstring :=
  match v with
  | Str s => Ok (toUpperCase w s)
  | _ => Throw TypeError
  end.

Section Routes.
Context (w : World).

(** *** Auth middleware (lines 104-121) *)
Definition authMiddleware (req : request) (next : M response) : M response :=
  let authHeader := default [] (authorization req) in
  let token :=
    if startsWith (lit "Bearer ") authHeader then Some (drop 7 authHeader)
    else None in
  match token with
  | None | Some [] =>
      respond 401 (error_body (Str (lit "No token, authorization denied")))
  | Some t =>
      match jwt_verify w t (env_value w (lit "JWT_SECRET")) with
      | Ok decoded => next                      (* req.user = decoded; next() *)
      | Throw _ => respond 401 (error_body (Str (lit "Token is not valid")))
      end
  end.

(** [jwt.sign({ id: user._id, email: user.email }, JWT_SECRET,
              { expiresIn: JWT_EXPIRES_IN || "7d" })] *)
Definition issue_token (user : value) : result value :=
  uid ← get_field user (lit "_id");
  uemail ← get_field user (lit "email");
  jwt_sign w
    (Obj [(lit "id", uid); (lit "email", uemail)])
    (env_value w (lit "JWT_SECRET"))
    (Obj [(lit "expiresIn",
           or_else (env_value w (lit "JWT_EXPIRES_IN")) (Str (lit "7d")))]).

(** [{ user: { id: user._id, name: user.name, email: user.email }, token }] *)
Definition session_body (user token : value) : result value :=
  uid ← get_field user (lit "_id");
  uname ← get_field user (lit "name");
  uemail ← get_field user (lit "email");
  mret (Obj [(lit "user",
              Obj [(lit "id", uid); (lit "name", uname); (lit "email", uemail)]);
             (lit "token", token)]).

(** *** POST /api/auth/register (lines 128-163) *)
Definition register (req : request) : M response :=
  catch
    (name ← lift (get_field (body req) (lit "name"));
     email ← lift (get_field (body req) (lit "email"));
     password ← lift (get_field (body req) (lit "password"));
     if negb (truthy name) || negb (truthy email) || negb (truthy password)
     then respond 400 (error_body (Str (lit "All fields are required")))
     else
       let query := Obj [(lit "email", email)] in
       existing ← perform (DbFindOne query) (User_findOne w query);
       if truthy existing
       then respond 400 (error_body (Str (lit "Email already in use")))
       else
         hashed ← lift (bcrypt_hash w password 10);
         let doc := Obj [(lit "name", name); (lit "email", email);
                         (lit "password", hashed)] in
         user ← perform (DbCreate doc) (User_create w doc);
         token ← lift (issue_token user);
         payload ← lift (session_body user token);
         respond 200 payload)
    (λ _, respond 500 (error_body (Str (lit "Server error")))).

(** *** POST /api/auth/login (lines 166-198) *)
Definition login (req : request) : M response :=
  catch
    (email ← lift (get_field (body req) (lit "email"));
     password ← lift (get_field (body req) (lit "password"));
     let query := Obj [(lit "email", email)] in
     user ← perform (DbFindOne query) (User_findOne w query);
     if negb (truthy user)
     then respond 400 (error_body (Str (lit "Invalid email or password")))
     else
       stored ← lift (get_field user (lit "password"));
       isMatch ← lift (bcrypt_compare w password stored);
       if negb isMatch
       then respond 400 (error_body (Str (lit "Invalid email or password")))
       else
         token ← lift (issue_token user);
         payload ← lift (session_body user token);
         respond 200 payload)
    (λ _, respond 500 (error_body (Str (lit "Server error")))).

(** *** POST /api/tools/weather (lines 203-245) *)

(** The object literal [result] of lines 229-238. *)
Definition weather_result (data : value) : result value :=
  name ← get_field data (lit "name");
  sys ← get_field data (lit "sys");
  main ← get_field data (lit "main");
  weather ← get_field data (lit "weather");
  mret (Obj [(lit "city", name);
             (lit "country", get_field_opt sys (lit "country"));
             (lit "temp", get_field_opt main (lit "temp"));
             (lit "feels_like", get_field_opt main (lit "feels_like"));
             (lit "humidity", get_field_opt main (lit "humidity"));
             (lit "description", get_field_opt (at0_opt weather) (lit "description"));
             (lit "icon", get_field_opt (at0_opt weather) (lit "icon"));
             (lit "raw", data)]).

Definition weather_url (q key : jsstring) : jsstring :=
  lit "https://api.openweathermap.org/data/2.5/weather?q=" ++ q
  ++ lit "&units=metric&appid=" ++ key.

Definition weather (req : request) : M response :=
  catch
    (city ← lift (get_field (body req) (lit "city"));
     blank ← lift (if negb (truthy city) then mret true
                   else t ← call_trim city; mret (negb (truthy t)));
     if (blank : bool)
     then respond 400 (error_body (Str (lit "City is required")))
     else if negb (truthy (env_value w (lit "WEATHER_API_KEY")))
     then respond 500 (error_body (Str (lit "WEATHER_API_KEY is not set in .env")))
     else
       trimmed ← lift (call_trim city ≫= to_string);
       q ← lift (encodeURIComponent w trimmed);
       let key := env_text w (lit "WEATHER_API_KEY") in
       let r := {| url := weather_url q key; fetch_method := lit "GET";
                   fetch_authorization := None; fetch_body := Undefined |} in
       resp ← perform (Fetch r) (fetch w r);
       data ← lift (res_json resp);
       if negb (ok resp)
       then
         msg ← lift (get_field data (lit "message"));
         respond (upstream_status resp)
                 (error_body (or_else msg (Str (lit "Weather API error"))))
       else
         result ← lift (weather_result data);
         respond 200 result)
    (λ _, respond 500 (error_body (Str (lit "Failed to fetch weather")))).

(** *** POST /api/chat (lines 250-331) *)

Definition default_system_prompt : jsstring :=
  lit "You are a friendly AI assistant helping an IT undergraduate. Explain things simply with examples.".

Definition chat_message (role : jsstring) (content : value) : value :=
  Obj [(lit "role", Str role); (lit "content", content)].

(** Lines 260-272: the message list handed to the provider branch. *)
Definition chatMessages (message messages : value) : list value :=
  match nonempty_array messages with
  | Some l => l
  | None =>
      [chat_message (lit "system") (Str default_system_prompt);
       chat_message (lit "user") message]
  end.

(** [l.map(f)] where [f] may throw: elements are visited in order. *)
Fixpoint map_result {A B} (f : A → result B) (l : list A) : result (list B) :=
  match l with
  | [] => Ok []
  | x :: l' => y ← f x; ys ← map_result f l'; mret (y :: ys)
  end.

(** [chatMessages.map((m) => `${m.role.toUpperCase()}: ${m.content}`).join("\n")] *)
Definition gemini_transcript (msgs : list value) : result jsstring :=
  lines ← map_result (λ m,
    role ← get_field m (lit "role");
    upper ← call_toUpperCase w role;
    content ← get_field m (lit "content");
    text ← to_string content;
    mret (upper ++ lit ": " ++ text)) msgs;
  mret (join [0x0A] lines).

(** [chatMessages.map((m) => `${m.role}: ${m.content}`).join("\n")] *)
Definition hf_transcript (msgs : list value) : result jsstring :=
  lines ← map_result (λ m,
    role ← get_field m (lit "role");
    role_text ← to_string role;
    content ← get_field m (lit "content");
    text ← to_string content;
    mret (role_text ++ lit ": " ++ text)) msgs;
  mret (join [0x0A] lines).

(** The argument of the two OpenAI-compatible [chat.completions.create]. *)
Definition completion_args (model : jsstring) (msgs : list value) : value :=
  Obj [(lit "model", Str model);
       (lit "messages", Arr msgs);
       (lit "max_tokens", Num (lit "500"));
       (lit "temperature", Num (lit "0.7"))].

(** [response.choices[0]?.message?.content || "No reply"] *)
Definition completion_reply (response : value) : result value :=
  choices ← get_field response (lit "choices");
  first ← at0 choices;
  mret (or_else (get_field_opt (get_field_opt first (lit "message")) (lit "content"))
                (Str (lit "No reply"))).

Definition hf_chat_request (userText : value) : fetch_request :=
  {| url := lit "https://api-inference.huggingface.co/models/facebook/blenderbot-400M-distill";
     fetch_method := lit "POST";
     fetch_authorization := Some (lit "Bearer " ++ env_text w (lit "HF_API_KEY"));
     fetch_body := Obj [(lit "inputs", userText)] |}.

Definition chat_reply (aiReply usedProvider : value) : value :=
  Obj [(lit "reply", aiReply); (lit "provider", usedProvider)].

Definition chat (req : request) : M response :=
  catch
    (message ← lift (get_field (body req) (lit "message"));
     messages ← lift (get_field (body req) (lit "messages"));
     given ← lift (get_field (body req) (lit "provider"));
     let provider :=
       match given with Undefined => Str (lit "groq") | _ => given end in
     if negb (truthy message) && negb (bool_decide (is_Some (nonempty_array messages)))
     then respond 400 (error_body (Str (lit "Either `message` or `messages` is required")))
     else
       let msgs := chatMessages message messages in
       if strict_eq_str provider (lit "gemini") then
         combined ← lift (gemini_transcript msgs);
         aiReply ← perform (GeminiGenerate (lit "gemini-2.0-flash") combined)
                           (gemini_text w (lit "gemini-2.0-flash") combined);
         respond 200 (chat_reply aiReply provider)
       else if strict_eq_str provider (lit "deepseek") then
         let args := completion_args (lit "deepseek-chat") msgs in
         response ← perform (DeepseekCreate args) (deepseek_create w args);
         aiReply ← lift (completion_reply response);
         respond 200 (chat_reply aiReply provider)
       else if strict_eq_str provider (lit "huggingface") then
         transcript ← lift (hf_transcript msgs);
         let userText := or_else (Str transcript) message in
         let r := hf_chat_request userText in
         hfRes ← perform (Fetch r) (fetch w r);
         data ← lift (res_json hfRes);
         first ← lift (at0 data);
         let aiReply := or_else (get_field_opt first (lit "generated_text"))
                                (JSON_stringify w data) in
         respond 200 (chat_reply aiReply provider)
       else
         let args := completion_args (lit "llama-3.1-8b-instant") msgs in
         response ← perform (GroqCreate args) (groq_create w args);
         aiReply ← lift (completion_reply response);
         respond 200 (chat_reply aiReply (Str (lit "groq"))))
    (λ e,
       let err := caught w e in
       let upstream_message :=
         get_field_opt (get_field_opt (get_field_opt (get_field_opt err
           (lit "response")) (lit "data")) (lit "error")) (lit "message") in
       errorMsg ← lift (if truthy upstream_message then mret upstream_message
                        else own ← get_field err (lit "message");
                             mret (or_else own (Str (lit "Error contacting AI service"))));
       respond 500 (error_body errorMsg)).

(** *** POST /api/image/generate (lines 336-374) *)

Definition hf_image_request (prompt : value) : fetch_request :=
  {| url := lit "https://api-inference.huggingface.co/models/stabilityai/stable-diffusion-2-1";
     fetch_method := lit "POST";
     fetch_authorization := Some (lit "Bearer " ++ env_text w (lit "HF_API_KEY"));
     fetch_body := Obj [(lit "inputs", prompt)] |}.

Definition image_generate (req : request) : M response :=
  catch
    (prompt ← lift (get_field (body req) (lit "prompt"));
     blank ← lift (if negb (truthy prompt) then mret true
                   else t ← call_trim prompt; mret (negb (truthy t)));
     if (blank : bool)
     then respond 400 (error_body (Str (lit "Prompt is required")))
     else
       let r := hf_image_request prompt in
       hfRes ← perform (Fetch r) (fetch w r);
       if negb (ok hfRes)
       then
         errText ← lift (res_text hfRes);
         respond 500 (error_body (Str (lit "Image API failed")))
       else
         arrayBuffer ← lift (res_arrayBuffer hfRes);
         respond 200
           (Obj [(lit "imageBase64",
                  Str (lit "data:image/png;base64," ++ base64 w arrayBuffer))]))
    (λ _, respond 500 (error_body (Str (lit "Image generation failed")))).

(** *** The application: the CORS middleware answers every OPTIONS request
    itself (its response headers are not modelled); the other requests go
    to the route registered for their method and path.  Express sends a
    HEAD request through the GET route and withholds the body.  A request
    no route matches gets Express's own 404. *)
Definition app (req : request) : M response :=
  if streq (method req) (lit "OPTIONS") then respond 204 Undefined
  else if streq (method req) (lit "GET") || streq (method req) (lit "HEAD") then
    match path req with
    | Some ApiHealth =>
        respond 200 (if streq (method req) (lit "HEAD") then Undefined
                     else Obj [(lit "ok", Bool true)])
    | _ => respond 404 Undefined
    end
  else if streq (method req) (lit "POST") then
    match path req with
    | Some ApiAuthRegister => register req
    | Some ApiAuthLogin => login req
    | Some ApiToolsWeather => weather req
    | Some ApiChat => authMiddleware req (chat req)
    | Some ApiImageGenerate => image_generate req
    | _ => respond 404 Undefined
    end
  else respond 404 Undefined.

End Routes.
End Server.

(* ===================================================================== *)
(** ** The client session store: App.jsx *)
(* ===================================================================== *)

Module Client.
Import JS.

(** [{ sender, text, provider?, imageUrl? }]; an absent field is
    [Undefined].  [text] is a value: a bot message stores whatever the
    server's JSON carried. *)
Record Message : Type := {
  sender : jsstring;
  text : value;
  provider : value;
  imageUrl : value;
}.

Record Chat : Type := {
  id : jsstring;
  title : jsstring;
  createdAt : N;
  messages : list Message;
}.

(** The state variables of [App] that the chat handlers read or write. *)
Record State : Type := {
  token : option jsstring;
  chats : list Chat;
  activeChatId : option jsstring;
  input : jsstring;
  loading : bool;
  mode : jsstring;
  selectedProvider : jsstring;        (* the state variable [provider] *)
  searchTerm : jsstring;
  voiceEnabled : bool;
  imageFile : option jsstring;        (* imageFile.name *)
  imagePreview : option jsstring;
}.

(** A [fetch] of the client; [http_body] is the value given to
    [JSON.stringify]. *)
Record http_request : Type := {
  http_url : jsstring;
  http_authorization : jsstring;
  http_body : value;
}.

Record http_response : Type := {
  ok : bool;                  (* res.ok *)
  json : result value;        (* await res.json() *)
}.

(** What a handler does besides updating the state.  [RenderError e]: an
    updater the handler queued throws [e] when React applies it; the render
    fails and, no error boundary being there, the component is unmounted. *)
Inductive effect : Type :=
| HttpPost (r : http_request)
| Speak (text : value)
| RenderError (e : exn).

(** The browser and the network, as seen by one handler run. *)
Record World : Type := {
  API_BASE : jsstring;
  now : N;                                        (* Date.now() *)
  now_again : N;                                  (* the Date.now() after it *)
  fetch : http_request → result http_response;
  speechSynthesis_in_window : bool;
}.

Definition new_chat_title : jsstring := lit "New chat".

Definition greeting : Message :=
  {| sender := lit "bot";
     text := Str (lit "Hi! I'm your Falcon AI " ++ [0xD83E; 0xDD16]
                  ++ lit ". Ask me anything!");
     provider := Str (lit "groq");
     imageUrl := Undefined |}.

(** Lines 10-23: the clock is read once for the id (line 12) and once
    more for [createdAt] (line 14). *)
Definition createNewChat (now now_again : N) : Chat :=
  {| id := decimal now;
     title := new_chat_title;
     createdAt := now_again;
     messages := [greeting] |}.

(** Lines 45-46: [chats.find((c) => c.id === activeChatId) || chats[0] ||
    createNewChat()]. *)
Definition activeChat (w : World) (st : State) : Chat :=
  match find (λ c, bool_decide (Some (id c) = activeChatId st)) (chats st) with
  | Some c => c
  | None =>
      match chats st with
      | c :: _ => c
      | [] => createNewChat (now w) (now_again w)
      end
  end.

(** Setters of the state variables the handlers write. *)
Definition setChats (f : list Chat → list Chat) (st : State) : State :=
  {| token := token st; chats := f (chats st); activeChatId := activeChatId st;
     input := input st; loading := loading st; mode := mode st;
     selectedProvider := selectedProvider st; searchTerm := searchTerm st;
     voiceEnabled := voiceEnabled st; imageFile := imageFile st;
     imagePreview := imagePreview st |}.

Definition setActiveChatId (i : option jsstring) (st : State) : State :=
  {| token := token st; chats := chats st; activeChatId := i;
     input := input st; loading := loading st; mode := mode st;
     selectedProvider := selectedProvider st; searchTerm := searchTerm st;
     voiceEnabled := voiceEnabled st; imageFile := imageFile st;
     imagePreview := imagePreview st |}.

Definition setLoading (b : bool) (st : State) : State :=
  {| token := token st; chats := chats st; activeChatId := activeChatId st;
     input := input st; loading := b; mode := mode st;
     selectedProvider := selectedProvider st; searchTerm := searchTerm st;
     voiceEnabled := voiceEnabled st; imageFile := imageFile st;
     imagePreview := imagePreview st |}.

Definition setSearchTerm (t : jsstring) (st : State) : State :=
  {| token := token st; chats := chats st; activeChatId := activeChatId st;
     input := input st; loading := loading st; mode := mode st;
     selectedProvider := selectedProvider st; searchTerm := t;
     voiceEnabled := voiceEnabled st; imageFile := imageFile st;
     imagePreview := imagePreview st |}.

(** Lines 901 and 995: [onChange={(e) => setInput(e.target.value)}]. *)
Definition setInput (t : jsstring) (st : State) : State :=
  {| token := token st; chats := chats st; activeChatId := activeChatId st;
     input := t; loading := loading st; mode := mode st;
     selectedProvider := selectedProvider st; searchTerm := searchTerm st;
     voiceEnabled := voiceEnabled st; imageFile := imageFile st;
     imagePreview := imagePreview st |}.

(** [setInput(""); setImageFile(null); setImagePreview(null)] *)
Definition resetComposer (st : State) : State :=
  {| token := token st; chats := chats st; activeChatId := activeChatId st;
     input := []; loading := loading st; mode := mode st;
     selectedProvider := selectedProvider st; searchTerm := searchTerm st;
     voiceEnabled := voiceEnabled st; imageFile := None;
     imagePreview := None |}.

(** [{ ...chat, title: t, messages: ms }] *)
Definition with_title_messages (t : jsstring) (ms : list Message) (chat : Chat) : Chat :=
  {| id := id chat; title := t; createdAt := createdAt chat; messages := ms |}.

(** Lines 352-360. *)
Definition handleNewChat (w : World) (st : State) : State :=
  let newChat := createNewChat (now w) (now_again w) in
  setSearchTerm []
    (resetComposer
       (setActiveChatId (Some (id newChat))
          (setChats (λ prev, prev ++ [newChat]) st))).

(** Lines 363-385. *)
Definition clearCurrentChat (w : World) (st : State) : State :=
  let active := activeChat w st in
  resetComposer
    (setChats (λ prev,
       (λ chat, if streq (id chat) (id active)
                then with_title_messages new_chat_title [greeting] chat
                else chat) <$> prev) st).

(** Lines 225-276. *)
Definition dateLine : jsstring :=
  lit "Today's date is February 2025. Use the most accurate and up-to-date knowledge available. "
  ++ lit "If you are unsure about anything, answer honestly instead of guessing.".

Definition getSystemPrompt (st : State) : jsstring :=
  if streq (mode st) (lit "coding") then
    lit "You are a professional coding tutor helping an IT undergraduate in 2025. "
    ++ lit "Explain concepts clearly with step-by-step instructions. "
    ++ lit "Use modern frameworks and 2025 standards (React 19+, Node 20+, Java 21, Kotlin 2.0+, Tailwind, modern MERN best practices). "
    ++ dateLine
  else if streq (mode st) (lit "study") then
    lit "You help university students understand academic subjects in 2025. "
    ++ lit "Explain topics in simple English with examples, bullet points, and clear reasoning. "
    ++ lit "Focus on updated 2025 content, IT standards, and modern knowledge. "
    ++ dateLine
  else if streq (mode st) (lit "cv") then
    lit "You help students improve CVs, cover letters, LinkedIn profiles, and job applications. "
    ++ lit "Give 2025 recruitment trends, ATS-friendly suggestions, modern skill keywords, and professional tone. "
    ++ dateLine
  else if streq (mode st) (lit "sinhala") then
    lit "You are a Sinhala translator and explainer. Translate between English and Sinhala accurately. "
    ++ lit "Explain meanings in simple Sinhala when needed. "
    ++ dateLine
  else if streq (mode st) (lit "image") then
    lit "You are an AI that helps generate images from text prompts. "
    ++ lit "The actual image will be produced by a separate image model. "
    ++ lit "Help the user improve prompts if needed. "
    ++ dateLine
  else
    lit "You are a friendly AI assistant helping an IT undergraduate in 2025. "
    ++ lit "Explain things simply with examples, keep answers updated, and provide practical help. "
    ++ dateLine.

(** *** sendMessage (lines 388-570) *)

(** Lines 411-413: the title derived from a message. *)
Definition deriveTitle (userText : jsstring) : jsstring :=
  let trimmed := trim (collapse_whitespace userText) in
  if (40 <? length trimmed)%nat then slice0 40 trimmed ++ lit "..." else trimmed.

Definition user_message (userText : jsstring) : Message :=
  {| sender := lit "user"; text := Str userText;
     provider := Undefined; imageUrl := Undefined |}.

(** The updater of lines 399-418. *)
Definition appendUserMessage (target userText : jsstring) (prev : list Chat) : list Chat :=
  (λ chat,
     if negb (streq (id chat) target) then chat
     else
       let newMessages := messages chat ++ [user_message userText] in
       let newTitle :=
         if streq (title chat) new_chat_title then deriveTitle userText
         else title chat in
       with_title_messages newTitle newMessages chat) <$> prev.

(** The updater shared by every place that adds a bot message:
    [{ ...chat, messages: [...chat.messages, m] }] for the chat whose id is
    [target]. *)
Definition appendMessage (target : jsstring) (m : Message) (prev : list Chat) : list Chat :=
  (λ chat,
     if streq (id chat) target
     then with_title_messages (title chat) (messages chat ++ [m]) chat
     else chat) <$> prev.

Definition bot_message (t provider imageUrl : value) : Message :=
  {| sender := lit "bot"; text := t; provider := provider; imageUrl := imageUrl |}.

(** The warning sign U+26A0 U+FE0F that opens the error texts. *)
Definition warning_sign : jsstring := [0x26A0; 0xFE0F].

Definition image_server_error : Message :=
  bot_message (Str (warning_sign ++ lit " Error contacting image server."))
              Undefined Undefined.

Definition server_error : Message :=
  bot_message (Str (warning_sign ++ lit " Error contacting server."))
              Undefined Undefined.

(** Line 395. *)
Definition attachment_note (name : jsstring) : jsstring :=
  [0x0A; 0x0A] ++ lit "[User has attached an image: " ++ [0x22] ++ name
  ++ [0x22] ++ lit ". Backend cannot see the actual pixels.]".

Definition userText_of (st : State) : jsstring :=
  trim (input st)
  ++ match imageFile st with
     | Some name => attachment_note name
     | None => []
     end.

(** [Authorization: token ? `Bearer ${token}` : ""] *)
Definition bearer (st : State) : jsstring :=
  match token st with
  | Some (c :: t) => lit "Bearer " ++ c :: t
  | _ => []
  end.

Definition image_request (w : World) (st : State) (userText : jsstring) : http_request :=
  {| http_url := API_BASE w ++ lit "/api/image/generate";
     http_authorization := bearer st;
     http_body := Obj [(lit "prompt", Str userText)] |}.

(** What a [setChats] call of the image branch hands to React: an updater
    that adds a bot message, or one that throws when React applies it. *)
Inductive queued : Type :=
| Appends (m : Message)
| Fails (e : exn).

(** The [try] block of the image branch up to its [setChats]: the updater
    it queues, or the exception that sends control to [catch].  The error
    text is a template literal inside the updater (line 448): its ToString
    runs when React applies the updater, after the handler has left its
    [try]. *)
Definition image_attempt (w : World) (r : http_request) : result queued :=
  res ← fetch w r;
  data ← json res;
  failed ← (if negb (ok res) then mret true
            else img ← get_field data (lit "imageBase64");
                 mret (negb (truthy img)));
  if (failed : bool) then
    err ← get_field data (lit "error");
    let errMsg := or_else err (Str (lit "Image generation failed.")) in
    mret (match to_string errMsg with
          | Ok printed =>
              Appends (bot_message (Str (warning_sign ++ lit " " ++ printed))
                                   Undefined Undefined)
          | Throw e => Fails e
          end)
  else
    img ← get_field data (lit "imageBase64");
    mret (Appends (bot_message
                     (Str (lit "Here is your generated image " ++ [0xD83C; 0xDFA8]))
                     (Str (lit "huggingface")) img)).

(** Lines 505-512. *)
Definition formattedMessages (st : State) (history : list Message) (userText : jsstring) : list value :=
  let entry (role : jsstring) (content : value) :=
    Obj [(lit "role", Str role); (lit "content", content)] in
  [entry (lit "system") (Str (getSystemPrompt st))]
  ++ ((λ m, entry (if streq (sender m) (lit "user") then lit "user" else lit "assistant")
                  (text m)) <$> history)
  ++ [entry (lit "user") (Str userText)].

Definition chat_request (w : World) (st : State) (history : list Message) (userText : jsstring) : http_request :=
  {| http_url := API_BASE w ++ lit "/api/chat";
     http_authorization := bearer st;
     http_body := Obj [(lit "provider", Str (selectedProvider st));
                       (lit "messages", Arr (formattedMessages st history userText))] |}.

(** Lines 514-541: the bot message of the text branch. *)
Definition chat_attempt (w : World) (st : State) (r : http_request) : result Message :=
  res ← fetch w r;
  data ← json res;
  reply ← get_field data (lit "reply");
  error ← get_field data (lit "error");
  given ← get_field data (lit "provider");
  let botText :=
    or_else (or_else reply error) (Str (lit "Hmm, I couldn't reply.")) in
  mret (bot_message botText (coalesce given (Str (selectedProvider st))) Undefined).

(** Lines 195-202.  The browser's speech synthesis is an effect of its
    own; it is taken not to throw. *)
Definition speakText (w : World) (st : State) (t : value) : list effect :=
  if negb (voiceEnabled st) then []
  else if negb (speechSynthesis_in_window w) then []
  else [Speak t].

(** The handler, run to completion with no other event in between: the
    closure's [activeChat], [input], [mode], ... are those of [st], and each
    [setChats] updater is applied to the collection as the previous one left
    it.  When a queued updater throws, the render that applies it and the
    [setLoading(false)] of [finally] is lost: the state is the one React
    committed before the request. *)
Definition sendMessage (w : World) (st : State) : State * list effect :=
  let active := activeChat w st in
  if (negb (truthy (Str (trim (input st)))) && negb (bool_decide (is_Some (imageFile st))))
     || loading st
  then (st, [])
  else
    let userText := userText_of st in
    let st1 :=
      setLoading true
        (resetComposer (setChats (appendUserMessage (id active) userText) st)) in
    if streq (mode st) (lit "image") then
      let r := image_request w st userText in
      match image_attempt w r with
      | Ok (Appends m) =>
          (setLoading false (setChats (appendMessage (id active) m) st1),
           [HttpPost r])
      | Ok (Fails e) => (st1, [HttpPost r; RenderError e])
      | Throw _ =>
          (setLoading false (setChats (appendMessage (id active) image_server_error) st1),
           [HttpPost r])
      end
    else
      let r := chat_request w st (messages active) userText in
      match chat_attempt w st r with
      | Ok m =>
          (setLoading false (setChats (appendMessage (id active) m) st1),
           HttpPost r :: speakText w st (text m))
      | Throw _ =>
          (setLoading false (setChats (appendMessage (id active) server_error) st1),
           [HttpPost r])
      end.

End Client.

(* ===================================================================== *)
(** ** Properties *)
(* ===================================================================== *)

(** *** Vocabulary of the statements *)

Module Spec.
Import JS.

(** Empty or whitespace-only. *)
Definition blank (s : jsstring) : Prop :=
  Forall (λ c, is_whitespace c = true) s.

(** A value that is missing, empty or whitespace-only text. *)
Definition blank_value (v : value) : Prop :=
  v = Undefined ∨ ∃ s, v = Str s ∧ blank s.

(** The request carries a valid [Authorization: Bearer <token>] header: a
    non-empty token that [jwt.verify] accepts under the server's secret. *)
Definition authenticated (w : Server.World) (req : Server.request) : Prop :=
  ∃ t decoded,
    Server.authorization req = Some (lit "Bearer " ++ t) ∧ t ≠ [] ∧
    Server.jwt_verify w t (Server.env_value w (lit "JWT_SECRET")) = Ok decoded.

(** A login attempt whose email matches no stored user. *)
Definition unknown_email (w : Server.World) (req : Server.request) : Prop :=
  ∃ email,
    get_field (Server.body req) (lit "email") = Ok email ∧
    Server.User_findOne w (Obj [(lit "email", email)]) = Ok Null.

(** A login attempt whose email is stored, with a password that
    [bcrypt.compare] finds not to match the stored hash. *)
Definition wrong_password (w : Server.World) (req : Server.request) : Prop :=
  ∃ email password user,
    get_field (Server.body req) (lit "email") = Ok email ∧
    get_field (Server.body req) (lit "password") = Ok password ∧
    Server.User_findOne w (Obj [(lit "email", email)]) = Ok user ∧
    truthy user = true ∧
    Server.bcrypt_compare w password (get_field_opt user (lit "password")) = Ok false.

(** The response both kinds of failed login get. *)
Definition invalid_credentials : Server.response :=
  {| Server.status := 400;
     Server.json := Obj [(lit "error", Str (lit "Invalid email or password"))] |}.

(** A provider id that is omitted ([Undefined]) or none of the three ids
    with a branch of their own. *)
Definition not_a_named_provider (p : value) : Prop :=
  p ≠ Str (lit "gemini") ∧ p ≠ Str (lit "deepseek") ∧ p ≠ Str (lit "huggingface").

(** The outside call [c] hands its service the message list [l]: as the
    [messages] of a completion call or of a request body. *)
Definition carries_messages (c : Server.call) (l : list value) : Prop :=
  match c with
  | Server.GroqCreate args | Server.DeepseekCreate args =>
      get_field_opt args (lit "messages") = Arr l
  | Server.Fetch r => get_field_opt (Server.fetch_body r) (lit "messages") = Arr l
  | _ => False
  end.

(** The title as the specification words it: trim, collapse runs of
    whitespace, then cut at 40 code units with an ellipsis if longer. *)
Definition spec_title (message : jsstring) : jsstring :=
  let t := collapse_whitespace (trim message) in
  if decide (40 < length t)%nat then take 40 t ++ lit "..." else t.

(** The field names the weather gateway is said to return. *)
Definition claimed_weather_keys : list jsstring :=
  [lit "city"; lit "country"; lit "temp"; lit "feelsLike"; lit "humidity";
   lit "description"; lit "icon"].

(** The field names of the object server.js builds. *)
Definition weather_keys : list jsstring :=
  [lit "city"; lit "country"; lit "temp"; lit "feels_like"; lit "humidity";
   lit "description"; lit "icon"; lit "raw"].

(** The example message of the specification. *)
Definition example_message : jsstring :=
  lit "Explain recursion in simple terms for a beginner please".

(** The chat collection is well formed: not empty, ids pairwise distinct. *)
Definition well_formed (cs : list Client.Chat) : Prop :=
  cs ≠ [] ∧ NoDup (Client.id <$> cs).

(** [sendMessage] goes past its guard: some text or an attachment, and no
    request outstanding. *)
Definition accepted (st : Client.State) : Prop :=
  (trim (Client.input st) ≠ [] ∨ is_Some (Client.imageFile st)) ∧
  Client.loading st = false.

(** The request [sendMessage] issues, by mode. *)
Definition request_sent (w : Client.World) (st : Client.State) : Client.http_request :=
  if streq (Client.mode st) (lit "image")
  then Client.image_request w st (Client.userText_of st)
  else Client.chat_request w st (Client.messages (Client.activeChat w st))
                           (Client.userText_of st).

(** The updater [sendMessage] queues after the user's message, by mode and
    by the way the [try] block ends. *)
Definition reply_queued (w : Client.World) (st : Client.State) : Client.queued :=
  if streq (Client.mode st) (lit "image")
  then match Client.image_attempt w (request_sent w st) with
       | Ok q => q
       | Throw _ => Client.Appends Client.image_server_error
       end
  else match Client.chat_attempt w st (request_sent w st) with
       | Ok m => Client.Appends m
       | Throw _ => Client.Appends Client.server_error
       end.

(** The messages that updater adds. *)
Definition reply_messages (w : Client.World) (st : Client.State) : list Client.Message :=
  match reply_queued w st with
  | Client.Appends m => [m]
  | Client.Fails _ => []
  end.

(** The request got no answer, or an answer whose body is not JSON. *)
Definition network_or_parse_failure (w : Client.World) (st : Client.State) : Prop :=
  match Client.fetch w (request_sent w st) with
  | Throw _ => True
  | Ok res => ∃ e, Client.json res = Throw e
  end.

(** The send failed: a network or parse failure, or a response that is not
    ok. *)
Definition send_failed (w : Client.World) (st : Client.State) : Prop :=
  network_or_parse_failure w st ∨
  ∃ res, Client.fetch w (request_sent w st) = Ok res ∧ Client.ok res = false.



(** In image mode, the [error] of the answer can be converted to a string
    (every JSON value can, except an object with a key [toString] of its
    own, and an array holding one). *)
Definition error_prints (w : Client.World) (st : Client.State) : Prop :=
  streq (Client.mode st) (lit "image") = true →
  ∀ res data,
    Client.fetch w (request_sent w st) = Ok res → Client.json res = Ok data →
    ∃ printed, to_string (get_field_opt data (lit "error")) = Ok printed.

End Spec.

(** *** Concrete worlds and inputs *)

Module Sample.
Import JS.

Definition upper_ascii (s : jsstring) : jsstring :=
  (λ c, if (0x61 <=? c) && (c <=? 0x7A) then c - 0x20 else c) <$> s.

Definition ada : value :=
  Obj [(lit "_id", Str (lit "66a1")); (lit "name", Str (lit "Ada"));
       (lit "email", Str (lit "ada@example.com"));
       (lit "password", Str (lit "$2a$10$abcdefghijklmnopqrstuv"))].

Definition colombo : value :=
  Obj [(lit "name", Str (lit "Colombo"));
       (lit "sys", Obj [(lit "country", Str (lit "LK"))]);
       (lit "main", Obj [(lit "temp", Num (lit "29.4"));
                         (lit "feels_like", Num (lit "33.1"));
                         (lit "humidity", Num (lit "74"))]);
       (lit "weather", Arr [Obj [(lit "description", Str (lit "few clouds"));
                                 (lit "icon", Str (lit "02d"))]]);
       (lit "cod", Num (lit "200"))].

Definition completion : value :=
  Obj [(lit "choices",
        Arr [Obj [(lit "message",
                   Obj [(lit "role", Str (lit "assistant"));
                        (lit "content", Str (lit "Hello!"))])]])].

Definition server : Server.World :=
  {| Server.type_error_message := lit "Cannot read properties of undefined";
     Server.toUpperCase := upper_ascii;
     Server.encodeURIComponent := Ok;
     Server.JSON_stringify := λ _, Str (lit "{}");
     Server.base64 := λ _, lit "iVBORw0KGgo=";
     Server.env := λ name,
       if streq name (lit "JWT_EXPIRES_IN") then None
       else Some (lit "secret-" ++ name);
     Server.bcrypt_hash := λ _ _, Ok (Str (lit "$2a$10$abcdefghijklmnopqrstuv"));
     Server.bcrypt_compare := λ password _,
       match password with
       | Str s => Ok (streq s (lit "correct horse"))
       | _ => Throw (Thrown (Obj [(lit "message", Str (lit "Illegal arguments"))]))
       end;
     Server.jwt_sign := λ _ _ _, Ok (Str (lit "header.payload.signature"));
     Server.jwt_verify := λ t _,
       if streq t (lit "header.payload.signature")
       then Ok (Obj [(lit "id", Str (lit "66a1"));
                     (lit "email", Str (lit "ada@example.com"))])
       else Throw (Thrown (Obj [(lit "message", Str (lit "jwt malformed"))]));
     Server.User_findOne := λ query,
       if strict_eq_str (get_field_opt query (lit "email")) (lit "ada@example.com")
       then Ok ada else Ok Null;
     Server.User_create := λ doc, Ok doc;
     Server.fetch := λ r,
       Ok {| Server.upstream_status := 200;
             Server.res_json := Ok colombo;
             Server.res_text := Ok (Str []);
             Server.res_arrayBuffer := Ok [0x89; 0x50; 0x4E; 0x47] |};
     Server.groq_create := λ _, Ok completion;
     Server.deepseek_create := λ _, Ok completion;
     Server.gemini_text := λ _ _, Ok (Str (lit "Hello!")) |}.

Definition post (p : Server.endpoint) (auth : option jsstring) (b : value) : Server.request :=
  {| Server.method := lit "POST"; Server.path := Some p;
     Server.authorization := auth; Server.body := b |}.

Definition bearer_header : option jsstring :=
  Some (lit "Bearer header.payload.signature").

(** An image request with no Authorization header at all. *)
Definition anonymous_image_request : Server.request :=
  post Server.ApiImageGenerate None (Obj [(lit "prompt", Str (lit "a red fox"))]).

Definition weather_request : Server.request :=
  post Server.ApiToolsWeather None (Obj [(lit "city", Str (lit "Colombo"))]).

Definition blank_weather_request : Server.request :=
  post Server.ApiToolsWeather None (Obj [(lit "city", Str (lit "   "))]).

Definition unknown_provider_request : Server.request :=
  post Server.ApiChat bearer_header
       (Obj [(lit "provider", Str (lit "unknown-provider"));
             (lit "message", Str (lit "Hi"))]).

Definition single_message_request : Server.request :=
  post Server.ApiChat bearer_header
       (Obj [(lit "provider", Str (lit "gemini"));
             (lit "message", Str (lit "Hi"))]).

Definition unknown_email_login : Server.request :=
  post Server.ApiAuthLogin None
       (Obj [(lit "email", Str (lit "nobody@example.com"));
             (lit "password", Str (lit "correct horse"))]).

Definition wrong_password_login : Server.request :=
  post Server.ApiAuthLogin None
       (Obj [(lit "email", Str (lit "ada@example.com"));
             (lit "password", Str (lit "wrong"))]).

(** Two chats; the second is active and has a conversation in it. *)
Definition first_chat : Client.Chat :=
  {| Client.id := lit "1700000000000"; Client.title := lit "Sorting";
     Client.createdAt := 1700000000000;
     Client.messages := [Client.greeting; Client.user_message (lit "Sorting")] |}.

Definition second_chat : Client.Chat :=
  {| Client.id := lit "1700000005000"; Client.title := Client.new_chat_title;
     Client.createdAt := 1700000005000;
     Client.messages := [Client.greeting] |}.

Definition state (text : jsstring) (busy : bool) (m : jsstring) : Client.State :=
  {| Client.token := Some (lit "header.payload.signature");
     Client.chats := [first_chat; second_chat];
     Client.activeChatId := Some (lit "1700000005000");
     Client.input := text; Client.loading := busy; Client.mode := m;
     Client.selectedProvider := lit "groq"; Client.searchTerm := [];
     Client.voiceEnabled := false; Client.imageFile := None;
     Client.imagePreview := None |}.

(** A browser whose every request gets the answer [r]. *)
Definition browser (r : result Client.http_response) : Client.World :=
  {| Client.API_BASE := lit "http://localhost:5000";
     Client.now := 1700000009000;
     Client.now_again := 1700000009001;
     Client.fetch := λ _, r;
     Client.speechSynthesis_in_window := true |}.

Definition unauthorized : result Client.http_response :=
  Ok {| Client.ok := false;
        Client.json := Ok (Obj [(lit "error", Str (lit "Token is not valid"))]) |}.

Definition offline : result Client.http_response :=
  Throw (Thrown (Obj [(lit "message", Str (lit "Failed to fetch"))])).

End Sample.

(* ===================================================================== *)
(** ** More of server.js: the CORS middleware *)
(* ===================================================================== *)

Module Cors.
Import JS.

(** Lines 24-29. *)
Definition allowedOrigins : list jsstring :=
  [lit "https://falconai1.netlify.app";
   lit "http://localhost:5173";
   lit "http://localhost:5174";
   lit "https://falcon-ai--wikumsurindu542.replit.app"].

(** [s.endsWith(p)] *)
Definition endsWith (p s : jsstring) : bool :=
  startsWith (reverse p) (reverse s).

(** [allowedOrigins.includes(origin)] *)
Definition includes (l : list jsstring) (x : jsstring) : bool :=
  existsb (streq x) l.

(** Lines 36-40: the test the middleware applies to a non-empty Origin. *)
Definition origin_allowed (origin : jsstring) : bool :=
  let isExplicitAllowed := includes allowedOrigins origin in
  let isLocalhost := startsWith (lit "http://localhost") origin in
  let isNetlify := endsWith (lit ".netlify.app") origin in
  isExplicitAllowed || isLocalhost || isNetlify.

(** Lines 33-51: the response headers the middleware sets for a request
    whose Origin header is [origin] ([None] when the header is absent). *)
Definition cors_headers (origin : option jsstring) : list (jsstring * jsstring) :=
  match origin with
  | Some (c :: o) =>
      if origin_allowed (c :: o)
      then [(lit "Access-Control-Allow-Origin", c :: o);
            (lit "Access-Control-Allow-Headers",
             lit "Origin, X-Requested-With, Content-Type, Accept, Authorization");
            (lit "Access-Control-Allow-Methods",
             lit "GET, POST, PUT, PATCH, DELETE, OPTIONS")]
      else []
  | _ => []
  end.

End Cors.

(** *** Two chats made in one millisecond; answers that offer no text *)

Module Scenario.
Import JS.

(** An ordinary answer of the chat route. *)
Definition greeted : result Client.http_response :=
  Ok {| Client.ok := true;
        Client.json := Ok (Obj [(lit "reply", Str (lit "Hi!"));
                                (lit "provider", Str (lit "groq"))]) |}.




(** An error answer whose [error] cannot be printed. *)
Definition unprintable : result Client.http_response :=
  Ok {| Client.ok := false;
        Client.json := Ok (Obj [(lit "error",
                                 Obj [(lit "toString", Num (lit "1"))])]) |}.

(** [New chat] is clicked twice within the millisecond 1700000009000, then
    [Hello] is typed and sent. *)
Definition twins : Client.State :=
  (Client.sendMessage (Sample.browser greeted)
     (Client.setInput (lit "Hello")
        (Client.handleNewChat (Sample.browser greeted)
           (Client.handleNewChat (Sample.browser greeted)
              (Sample.state [] false (lit "general")))))).1.

(** Each of the two chats after that. *)
Definition twin : Client.Chat :=
  {| Client.id := lit "1700000009000"; Client.title := lit "Hello";
     Client.createdAt := 1700000009001;
     Client.messages :=
       [Client.greeting;
        {| Client.sender := lit "user"; Client.text := Str (lit "Hello");
           Client.provider := Undefined; Client.imageUrl := Undefined |};
        {| Client.sender := lit "bot"; Client.text := Str (lit "Hi!");
           Client.provider := Str (lit "groq"); Client.imageUrl := Undefined |}] |}.

End Scenario.

(* ===================================================================== *)
(** ** More of App.jsx: storage keys, the home screen switch, the weather
       widget *)
(* ===================================================================== *)

Module ClientView.
Import JS Client.

(** Lines 26-30.  [typeof userOrEmail === "string" ? userOrEmail :
    userOrEmail?.email], then the key. *)
Definition getChatsKey (userOrEmail : value) : result jsstring :=
  let email :=
    match userOrEmail with
    | Str s => Str s
    | _ => get_field_opt userOrEmail (lit "email")
    end in
  if truthy email
  then e ← to_string email; mret (lit "wikum_ai_chats_" ++ e)
  else mret (lit "wikum_ai_chats_guest").

(** Lines 186-188: [activeChat.messages.some((m) => m.sender === "user")];
    the home screen is shown while it is false. *)
Definition hasUserMessages (w : World) (st : State) : bool :=
  existsb (λ m, streq (sender m) (lit "user")) (messages (activeChat w st)).

(** The list item of a chat, line 741: [onClick={() =>
    setActiveChatId(chat.id)}]. *)
Definition selectChat (chat : Chat) (st : State) : State :=
  setActiveChatId (Some (id chat)) st.

(** The weather widget's state variables (lines 73-76). *)
Record Weather : Type := {
  weatherCity : jsstring;
  weatherData : value;          (* [Null] until a lookup succeeds *)
  weatherLoading : bool;
  weatherError : value;         (* [""] when there is none *)
}.

(** The request of lines 156-160; it has no Authorization header. *)
Record weather_post : Type := {
  weather_url : jsstring;
  weather_body : value;
}.

(** Lines 151-177, with the answer [answer] to the one [fetch] it makes. *)
Definition weather_request (w : World) (ws : Weather) : weather_post :=
  {| weather_url := API_BASE w ++ lit "/api/tools/weather";
     weather_body := Obj [(lit "city", Str (weatherCity ws))] |}.

Definition fetchWeather (w : World) (answer : weather_post → result http_response)
    (ws : Weather) : Weather * list weather_post :=
  if negb (truthy (Str (trim (weatherCity ws)))) then (ws, [])
  else
    let r := weather_request w ws in
    (* the [try] block: the error and the data it sets *)
    let attempt : result (value * value) :=
      res ← answer r;
      data ← json res;
      if negb (ok res) then
        err ← get_field data (lit "error");
        mret (or_else err (Str (lit "Failed to fetch weather")), Null)
      else mret (Str [], data) in
    let '(error, data) :=
      match attempt with
      | Ok set => set
      | Throw _ => (Str (lit "Network error"), Null)
      end in
    ({| weatherCity := weatherCity ws;
        weatherData := data;
        weatherLoading := false;
        weatherError := error |},
     [r]).

End ClientView.

(** *** Vocabulary of the further properties *)

Module SpecExtra.
Import JS.

(** The outside call [c] goes to the service of the provider [name]. *)
Definition served_by (name : jsstring) (c : Server.call) : Prop :=
  match c with
  | Server.GeminiGenerate model _ =>
      name = lit "gemini" ∧ model = lit "gemini-2.0-flash"
  | Server.DeepseekCreate args =>
      name = lit "deepseek" ∧ get_field_opt args (lit "model") = Str (lit "deepseek-chat")
  | Server.Fetch r =>
      name = lit "huggingface" ∧
      Server.url r = lit "https://api-inference.huggingface.co/models/facebook/blenderbot-400M-distill"
  | _ => False
  end.

(** [err?.response?.data?.error?.message] *)
Definition upstream_message (err : value) : value :=
  get_field_opt (get_field_opt (get_field_opt (get_field_opt err
    (lit "response")) (lit "data")) (lit "error")) (lit "message").

(** The groq completion call of a chat request. *)
Definition groq_call (req : Server.request) : Server.call :=
  Server.GroqCreate
    (Server.completion_args (lit "llama-3.1-8b-instant")
       (Server.chatMessages (get_field_opt (Server.body req) (lit "message"))
                            (get_field_opt (Server.body req) (lit "messages")))).

(** The chat request passes the validation of lines 254-258. *)
Definition has_content (req : Server.request) : Prop :=
  truthy (get_field_opt (Server.body req) (lit "message")) = true ∨
  is_Some (nonempty_array (get_field_opt (Server.body req) (lit "messages"))).

(** An authenticated chat request that passes validation and names no
    provider with a branch of its own. *)
Definition groq_request (w : Server.World) (req : Server.request) : Prop :=
  Server.method req = lit "POST" ∧ Server.path req = Some Server.ApiChat ∧
  Spec.authenticated w req ∧
  (∃ given, get_field (Server.body req) (lit "provider") = Ok given ∧
            Spec.not_a_named_provider given) ∧
  has_content req.

Definition server_error_response (msg : value) : Server.response :=
  {| Server.status := 500; Server.json := Obj [(lit "error", msg)] |}.

(** The string does not begin with whitespace. *)
Definition no_leading_whitespace (s : jsstring) : Prop :=
  match s with
  | [] => True
  | c :: _ => is_whitespace c = false
  end.

End SpecExtra.

Module SampleExtra.
Import JS.

(** A groq that answers with no choices at all. *)
Definition quiet_groq : Server.World :=
  {| Server.type_error_message := Server.type_error_message Sample.server;
     Server.toUpperCase := Server.toUpperCase Sample.server;
     Server.encodeURIComponent := Server.encodeURIComponent Sample.server;
     Server.JSON_stringify := Server.JSON_stringify Sample.server;
     Server.base64 := Server.base64 Sample.server;
     Server.env := Server.env Sample.server;
     Server.bcrypt_hash := Server.bcrypt_hash Sample.server;
     Server.bcrypt_compare := Server.bcrypt_compare Sample.server;
     Server.jwt_sign := Server.jwt_sign Sample.server;
     Server.jwt_verify := Server.jwt_verify Sample.server;
     Server.User_findOne := Server.User_findOne Sample.server;
     Server.User_create := Server.User_create Sample.server;
     Server.fetch := Server.fetch Sample.server;
     Server.groq_create := λ _, Ok (Obj [(lit "choices", Arr [])]);
     Server.deepseek_create := Server.deepseek_create Sample.server;
     Server.gemini_text := Server.gemini_text Sample.server |}.

(** A groq whose SDK throws an API error. *)
Definition failing_groq : Server.World :=
  {| Server.type_error_message := Server.type_error_message Sample.server;
     Server.toUpperCase := Server.toUpperCase Sample.server;
     Server.encodeURIComponent := Server.encodeURIComponent Sample.server;
     Server.JSON_stringify := Server.JSON_stringify Sample.server;
     Server.base64 := Server.base64 Sample.server;
     Server.env := Server.env Sample.server;
     Server.bcrypt_hash := Server.bcrypt_hash Sample.server;
     Server.bcrypt_compare := Server.bcrypt_compare Sample.server;
     Server.jwt_sign := Server.jwt_sign Sample.server;
     Server.jwt_verify := Server.jwt_verify Sample.server;
     Server.User_findOne := Server.User_findOne Sample.server;
     Server.User_create := Server.User_create Sample.server;
     Server.fetch := Server.fetch Sample.server;
     Server.groq_create := λ _,
       Throw (Thrown (Obj [(lit "message", Str (lit "429 rate limit reached"))]));
     Server.deepseek_create := Server.deepseek_create Sample.server;
     Server.gemini_text := Server.gemini_text Sample.server |}.

(** An upstream that answers every fetch with status 503 and a message. *)
Definition failing_upstream : Server.World :=
  {| Server.type_error_message := Server.type_error_message Sample.server;
     Server.toUpperCase := Server.toUpperCase Sample.server;
     Server.encodeURIComponent := Server.encodeURIComponent Sample.server;
     Server.JSON_stringify := Server.JSON_stringify Sample.server;
     Server.base64 := Server.base64 Sample.server;
     Server.env := Server.env Sample.server;
     Server.bcrypt_hash := Server.bcrypt_hash Sample.server;
     Server.bcrypt_compare := Server.bcrypt_compare Sample.server;
     Server.jwt_sign := Server.jwt_sign Sample.server;
     Server.jwt_verify := Server.jwt_verify Sample.server;
     Server.User_findOne := Server.User_findOne Sample.server;
     Server.User_create := Server.User_create Sample.server;
     Server.fetch := λ _,
       Ok {| Server.upstream_status := 503;
             Server.res_json := Ok (Obj [(lit "cod", Num (lit "503"));
                                         (lit "message", Str (lit "service unavailable"))]);
             Server.res_text := Ok (Str (lit "Model is loading"));
             Server.res_arrayBuffer := Ok [] |};
     Server.groq_create := Server.groq_create Sample.server;
     Server.deepseek_create := Server.deepseek_create Sample.server;
     Server.gemini_text := Server.gemini_text Sample.server |}.

(** A server with no weather key configured. *)
Definition no_weather_key : Server.World :=
  {| Server.type_error_message := Server.type_error_message Sample.server;
     Server.toUpperCase := Server.toUpperCase Sample.server;
     Server.encodeURIComponent := Server.encodeURIComponent Sample.server;
     Server.JSON_stringify := Server.JSON_stringify Sample.server;
     Server.base64 := Server.base64 Sample.server;
     Server.env := λ name,
       if streq name (lit "WEATHER_API_KEY") then None else Server.env Sample.server name;
     Server.bcrypt_hash := Server.bcrypt_hash Sample.server;
     Server.bcrypt_compare := Server.bcrypt_compare Sample.server;
     Server.jwt_sign := Server.jwt_sign Sample.server;
     Server.jwt_verify := Server.jwt_verify Sample.server;
     Server.User_findOne := Server.User_findOne Sample.server;
     Server.User_create := Server.User_create Sample.server;
     Server.fetch := Server.fetch Sample.server;
     Server.groq_create := Server.groq_create Sample.server;
     Server.deepseek_create := Server.deepseek_create Sample.server;
     Server.gemini_text := Server.gemini_text Sample.server |}.

Definition chat_post (b : value) : Server.request :=
  Sample.post Server.ApiChat Sample.bearer_header b.

Definition token_payload : value :=
  Obj [(lit "id", Str (lit "66a1")); (lit "email", Str (lit "ada@example.com"))].

End SampleExtra.

(** *** Strings *)

Section StringFacts.
Import JS Spec.

Lemma trim_start_blank (s : jsstring) : blank s → trim_start s = [].
Proof.
  induction 1 as [|c s Hc _ IH]; [done|].
  simpl. by rewrite Hc.
Qed.

Lemma trim_blank (s : jsstring) : blank s → trim s = [].
Proof.
  intros H. unfold trim, trim_end. by rewrite (trim_start_blank s H).
Qed.

(** Trimming and collapsing commute. *)

Lemma replace_ws_runs_true (s : jsstring) :
  replace_ws_runs true s = replace_ws_runs false (trim_start s).
Proof.
  induction s as [|c s IH]; [done|].
  simpl. destruct (is_whitespace c) eqn:Hc; [exact IH|].
  simpl. by rewrite Hc.
Qed.

Lemma trim_start_idem_collapsed (s : jsstring) :
  trim_start (replace_ws_runs false (trim_start s))
  = replace_ws_runs false (trim_start s).
Proof.
  induction s as [|c s IH]; [done|].
  simpl. destruct (is_whitespace c) eqn:Hc; [exact IH|].
  simpl. rewrite Hc. simpl. by rewrite Hc.
Qed.

Lemma trim_start_collapse (s : jsstring) :
  trim_start (collapse_whitespace s) = collapse_whitespace (trim_start s).
Proof.
  unfold collapse_whitespace. destruct s as [|c s]; [done|].
  simpl. destruct (is_whitespace c) eqn:Hc.
  - change (is_whitespace 32) with true. cbv iota.
    rewrite replace_ws_runs_true. apply trim_start_idem_collapsed.
  - simpl. by rewrite Hc.
Qed.

Lemma forallb_reverse (s : jsstring) :
  forallb is_whitespace (reverse s) = forallb is_whitespace s.
Proof.
  induction s as [|c s IH]; [done|].
  rewrite reverse_cons, forallb_app, IH. simpl.
  rewrite andb_true_r. apply andb_comm.
Qed.

Lemma trim_start_whitespace (s : jsstring) :
  forallb is_whitespace s = true → trim_start s = [].
Proof.
  induction s as [|c s IH]; [done|].
  simpl. destruct (is_whitespace c); [exact IH | discriminate].
Qed.

Lemma trim_start_snoc (l : jsstring) (c : N) :
  trim_start (l ++ [c])
  = if forallb is_whitespace l then trim_start [c] else trim_start l ++ [c].
Proof.
  induction l as [|a l IH]; [done|].
  simpl. destruct (is_whitespace a); [exact IH | done].
Qed.

Lemma trim_end_whitespace (s : jsstring) :
  forallb is_whitespace s = true → trim_end s = [].
Proof.
  intros H. unfold trim_end.
  rewrite trim_start_whitespace; [done|]. by rewrite forallb_reverse.
Qed.

Lemma trim_end_cons (c : N) (s : jsstring) :
  trim_end (c :: s)
  = if forallb is_whitespace (c :: s) then [] else c :: trim_end s.
Proof.
  unfold trim_end. rewrite reverse_cons, trim_start_snoc, forallb_reverse.
  simpl. destruct (forallb is_whitespace s) eqn:Hs.
  - rewrite andb_true_r. rewrite (trim_start_whitespace (reverse s)).
    + by destruct (is_whitespace c).
    + by rewrite forallb_reverse.
  - rewrite andb_false_r. by rewrite reverse_app.
Qed.

Lemma forallb_replace_ws_runs (b : bool) (s : jsstring) :
  forallb is_whitespace (replace_ws_runs b s) = forallb is_whitespace s.
Proof.
  revert b. induction s as [|c s IH]; intros b; [done|].
  simpl. destruct (is_whitespace c) eqn:Hc.
  - destruct b; simpl; by rewrite IH.
  - simpl. by rewrite Hc.
Qed.

Lemma trim_end_replace_ws_runs (b : bool) (s : jsstring) :
  trim_end (replace_ws_runs b s) = replace_ws_runs b (trim_end s).
Proof.
  revert b. induction s as [|c s IH]; intros b; [done|].
  rewrite (trim_end_cons c s).
  cbn [replace_ws_runs forallb]. destruct (is_whitespace c) eqn:Hc; cbn [andb].
  - destruct b.
    + rewrite IH. destruct (forallb is_whitespace s) eqn:Hs.
      * by rewrite (trim_end_whitespace s Hs).
      * cbn [replace_ws_runs]. by rewrite Hc.
    + rewrite trim_end_cons. cbn [forallb].
      change (is_whitespace 32) with true. cbn [andb].
      rewrite forallb_replace_ws_runs, IH.
      destruct (forallb is_whitespace s); [done|].
      cbn [replace_ws_runs]. by rewrite Hc.
  - rewrite trim_end_cons. cbn [forallb]. rewrite Hc. cbn [andb].
    rewrite IH. cbn [replace_ws_runs]. by rewrite Hc.
Qed.

Lemma trim_collapse (s : jsstring) :
  trim (collapse_whitespace s) = collapse_whitespace (trim s).
Proof.
  unfold trim. rewrite trim_start_collapse. apply trim_end_replace_ws_runs.
Qed.

(** The title the code derives is the title as the specification words
    it. *)
Lemma deriveTitle_spec (message : jsstring) :
  Client.deriveTitle message = spec_title message.
Proof.
  unfold Client.deriveTitle, spec_title, slice0. rewrite trim_collapse.
  destruct (decide _) as [H|H].
  - apply Nat.ltb_lt in H. by rewrite H.
  - apply Nat.ltb_nlt in H. by rewrite H.
Qed.

End StringFacts.

(** *** The client ignores an empty send *)

Section ClientGuard.
Import JS Spec Client.

(** C10.  When the input is empty or whitespace-only and no image is
    attached, or when a request is still outstanding ([loading]),
    [sendMessage] leaves the whole state as it was (so the chat collection,
    the active chat id and every message list are unchanged) and issues no
    HTTP request. *)
Theorem sendMessage_guard_is_noop (w : World) (st : State) :
  (blank (input st) ∧ imageFile st = None) ∨ loading st = true →
  sendMessage w st = (st, []) ∧
  chats (sendMessage w st).1 = chats st ∧
  activeChatId (sendMessage w st).1 = activeChatId st ∧
  (messages <$> chats (sendMessage w st).1) = (messages <$> chats st) ∧
  (∀ r, HttpPost r ∉ (sendMessage w st).2).
Proof.
  intros H.
  assert (E : sendMessage w st = (st, [])).
  { unfold sendMessage. destruct H as [[Hb Hi] | Hl].
    - rewrite (trim_blank _ Hb), Hi. reflexivity.
    - rewrite Hl. by rewrite orb_true_r. }
  rewrite E. simpl. repeat split; try done.
  intros r Hr. by apply not_elem_of_nil in Hr.
Qed.

Lemma sendMessage_guard_is_noop_witness :
  let w := Sample.browser Sample.offline in
  let st := Sample.state (lit "  ") false (lit "general") in
  ((blank (input st) ∧ imageFile st = None) ∨ loading st = true) ∧
  sendMessage w st = (st, []).
Proof.
  intros w st.
  assert (H : (blank (input st) ∧ imageFile st = None) ∨ loading st = true).
  { left. split; [|reflexivity]. unfold blank. simpl. repeat constructor. }
  split; [exact H|].
  exact (proj1 (sendMessage_guard_is_noop w st H)).
Defined.

End ClientGuard.

(** *** Routing *)

(** Unfolds the monadic plumbing and nothing else, so that string
    literals stay folded. *)
Ltac run_js :=
  cbv [mbind mret JS.result_bind JS.result_ret JS.try_catch JS.call_trim
       Server.M_bind Server.M_ret Server.lift Server.perform Server.catch
       Server.respond Server.outcome Server.calls negb fst snd].

Ltac run_in H :=
  cbv [mbind mret JS.result_bind JS.result_ret JS.try_catch JS.call_trim
       Server.M_bind Server.M_ret Server.lift Server.perform Server.catch
       Server.respond Server.outcome Server.calls negb fst snd] in H.

(** Case analysis on a scrutinee of [H] that has no [match] inside it. *)
Ltac innermost_case H :=
  match type of H with
  | context [match ?x with _ => _ end] =>
      lazymatch x with
      | context [match _ with _ => _ end] => fail
      | _ => destruct x eqn:?
      end
  end.

(** Follows a handler run [H : handler = (r, t)] down every path. *)
Ltac run_cases H := run_in H; repeat (innermost_case H; run_in H).

Section ServerFacts.
Import JS Spec Server.

Lemma app_post (w : World) (req : request) :
  method req = lit "POST" →
  app w req =
    match path req with
    | Some ApiAuthRegister => register w req
    | Some ApiAuthLogin => login w req
    | Some ApiToolsWeather => weather w req
    | Some ApiChat => authMiddleware w req (chat w req)
    | Some ApiImageGenerate => image_generate w req
    | _ => respond 404 Undefined
    end.
Proof. intros Hm. unfold app. rewrite Hm. reflexivity. Qed.

Lemma truthy_blank_str (s : jsstring) : blank s → truthy (Str (trim s)) = false.
Proof. intros H. by rewrite (trim_blank s H). Qed.

(** C5.  A request to /api/tools/weather whose [city] is missing, empty or
    whitespace-only is answered with status 400 and an error body, and no
    call leaves the process (so the weather API is not contacted). *)
Theorem weather_blank_city_rejected (w : World) (req : request) (city : value) :
  method req = lit "POST" →
  path req = Some ApiToolsWeather →
  get_field (body req) (lit "city") = Ok city →
  blank_value city →
  outcome (app w req)
    = Ok {| status := 400; json := Obj [(lit "error", Str (lit "City is required"))] |} ∧
  calls (app w req) = [].
Proof.
  intros Hm Hp Hc Hb.
  rewrite (app_post w req Hm), Hp. unfold weather. rewrite Hc.
  destruct Hb as [-> | (s & -> & Hs)].
  - split; reflexivity.
  - run_js. destruct (truthy (Str s)); [|split; reflexivity].
    rewrite (truthy_blank_str s Hs). split; reflexivity.
Qed.

Lemma weather_blank_city_rejected_witness :
  let req := Sample.blank_weather_request in
  (method req = lit "POST" ∧ path req = Some ApiToolsWeather ∧
   get_field (body req) (lit "city") = Ok (Str (lit "   ")) ∧
   blank_value (Str (lit "   "))) ∧
  outcome (app Sample.server req)
    = Ok {| status := 400; json := Obj [(lit "error", Str (lit "City is required"))] |} ∧
  calls (app Sample.server req) = [].
Proof.
  intros req.
  assert (Hb : blank_value (Str (lit "   "))).
  { right. exists (lit "   "). split; [reflexivity|].
    unfold blank. simpl. repeat constructor. }
  split.
  - repeat split; try reflexivity. exact Hb.
  - exact (weather_blank_city_rejected Sample.server req (Str (lit "   "))
             eq_refl eq_refl eq_refl Hb).
Defined.

Lemma get_field_total (v : value) (k k' : jsstring) (x : value) :
  get_field v k = Ok x → get_field v k' = Ok (get_field_opt v k').
Proof. destruct v; simpl; intros H; try discriminate; reflexivity. Qed.

Lemma get_field_truthy (v : value) (k : jsstring) :
  truthy v = true → get_field v k = Ok (get_field_opt v k).
Proof. destruct v; simpl; intros H; try discriminate; reflexivity. Qed.

Lemma login_unknown_email (w : World) (req : request) :
  unknown_email w req → outcome (login w req) = Ok invalid_credentials.
Proof.
  intros (email & He & Hu). unfold login.
  rewrite He, (get_field_total _ _ (lit "password") _ He).
  run_js. rewrite Hu. reflexivity.
Qed.

Lemma login_wrong_password (w : World) (req : request) :
  wrong_password w req → outcome (login w req) = Ok invalid_credentials.
Proof.
  intros (email & password & user & He & Hp & Hu & Ht & Hc). unfold login.
  rewrite He, Hp. run_js. rewrite Hu, Ht, (get_field_truthy _ _ Ht), Hc.
  reflexivity.
Qed.

(** C3.  A failed login with an email that is not in the user store and a
    failed login with a stored email whose password does not match the hash
    get the same response: status 400 with the error message
    [Invalid email or password]. *)
Theorem login_failures_indistinguishable (w : World) (req1 req2 : request) :
  method req1 = lit "POST" → path req1 = Some ApiAuthLogin →
  method req2 = lit "POST" → path req2 = Some ApiAuthLogin →
  unknown_email w req1 →
  wrong_password w req2 →
  outcome (app w req1) = outcome (app w req2) ∧
  outcome (app w req1)
    = Ok {| status := 400;
            json := Obj [(lit "error", Str (lit "Invalid email or password"))] |}.
Proof.
  intros Hm1 Hp1 Hm2 Hp2 H1 H2.
  rewrite (app_post w req1 Hm1), (app_post w req2 Hm2), Hp1, Hp2.
  rewrite (login_unknown_email w req1 H1), (login_wrong_password w req2 H2).
  split; reflexivity.
Qed.

Lemma login_failures_indistinguishable_witness :
  let req1 := Sample.unknown_email_login in
  let req2 := Sample.wrong_password_login in
  (unknown_email Sample.server req1 ∧ wrong_password Sample.server req2) ∧
  outcome (app Sample.server req1) = outcome (app Sample.server req2).
Proof.
  intros req1 req2.
  assert (H1 : unknown_email Sample.server req1).
  { exists (Str (lit "nobody@example.com")). split; reflexivity. }
  assert (H2 : wrong_password Sample.server req2).
  { exists (Str (lit "ada@example.com")), (Str (lit "wrong")), Sample.ada.
    repeat split; reflexivity. }
  split; [split; assumption|].
  exact (proj1 (login_failures_indistinguishable Sample.server req1 req2
                  eq_refl eq_refl eq_refl eq_refl H1 H2)).
Defined.

(** C1 (the code at an input that shows the defect).  A POST to
    /api/image/generate that carries no Authorization header is served: the
    route has no [authMiddleware], the HuggingFace image model is called and
    the image comes back with status 200. *)
Theorem image_generate_serves_anonymous_request :
  authorization Sample.anonymous_image_request = None ∧
  outcome (app Sample.server Sample.anonymous_image_request)
    = Ok {| status := 200;
            json := Obj [(lit "imageBase64",
                          Str (lit "data:image/png;base64,iVBORw0KGgo="))] |} ∧
  upstream_calls (app Sample.server Sample.anonymous_image_request)
    = [Fetch (hf_image_request Sample.server (Str (lit "a red fox")))].
Proof. repeat split; vm_compute; reflexivity. Qed.

(** The route never looks at the header: any two requests that differ only
    in it are handled alike. *)
Lemma image_generate_ignores_authorization (w : World) (req : request) (a : option jsstring) :
  method req = lit "POST" → path req = Some ApiImageGenerate →
  app w {| method := method req; path := path req; authorization := a;
           body := body req |} = app w req.
Proof.
  intros Hm Hp. unfold app. cbn [method path]. rewrite Hm, Hp. reflexivity.
Qed.

(** *** The weather gateway's fields *)

Lemma weather_result_fields (data v : value) :
  weather_result data = Ok v →
  ∃ fs, v = Obj fs ∧ keys fs = weather_keys ∧
        lookup_field (lit "raw") fs = data ∧
        lookup_field (lit "feels_like") fs
          = get_field_opt (get_field_opt data (lit "main")) (lit "feels_like").
Proof.
  unfold weather_result.
  destruct (get_field data (lit "name")) as [name|] eqn:E; [|discriminate].
  rewrite !(get_field_total _ _ _ _ E). run_js. intros [= <-].
  eexists. repeat split; reflexivity.
Qed.

(** C4 (as amended).  Every successful weather lookup answers with the
    object built from the upstream payload [data]: its fields are exactly
    city, country, temp, feels_like, humidity, description, icon and raw, in
    this order, where raw is the whole upstream payload. *)
Theorem weather_success_fields (w : World) (req : request) (resp : response) :
  method req = lit "POST" → path req = Some ApiToolsWeather →
  outcome (app w req) = Ok resp → status resp = 200 →
  ∃ r fr data fs,
    calls (app w req) = [Fetch r] ∧ fetch w r = Ok fr ∧ res_json fr = Ok data ∧
    json resp = Obj fs ∧ weather_result data = Ok (Obj fs) ∧
    keys fs = weather_keys ∧
    lookup_field (lit "raw") fs = data ∧
    lookup_field (lit "feels_like") fs
      = get_field_opt (get_field_opt data (lit "main")) (lit "feels_like").
Proof.
  intros Hm Hp. rewrite (app_post w req Hm), Hp.
  destruct (weather w req) as [r t] eqn:Hrun. unfold outcome, calls. cbn [fst snd].
  intros Hout Hs. subst r. unfold weather in Hrun. run_cases Hrun.
  all: injection Hrun as <- <-; cbn [status] in Hs; try discriminate Hs.
  - match goal with
    | Hj : res_json ?fr = Ok ?d, H : weather_result ?d = Ok _ |- _ =>
        destruct (weather_result_fields _ _ H) as (fs & -> & Hk & Hraw & Hf);
        eexists _, fr, d, fs
    end.
    repeat split; eauto.
  - match goal with H : ok _ = false |- _ => unfold ok in H; rewrite Hs in H end.
    discriminate.
Qed.

Lemma weather_success_fields_witness :
  let req := Sample.weather_request in
  ∃ resp,
    (outcome (app Sample.server req) = Ok resp ∧ status resp = 200) ∧
    ∃ fs, json resp = Obj fs ∧ keys fs = weather_keys.
Proof.
  intros req. eexists. split; [split; reflexivity|].
  destruct (weather_success_fields Sample.server req _ eq_refl eq_refl eq_refl eq_refl)
    as (r & fr & data & fs & _ & _ & _ & Hj & _ & Hk & _).
  exists fs. split; [exact Hj | exact Hk].
Defined.

(** C4 (as stated) fails: for the sample upstream payload the lookup
    succeeds, and the fields of the answer are not the claimed seven: [raw]
    is among them and [feelsLike] is not. *)
Lemma weather_fields_counterexample :
  ∃ resp fs,
    outcome (app Sample.server Sample.weather_request) = Ok resp ∧
    status resp = 200 ∧ json resp = Obj fs ∧
    ¬ (∀ k, k ∈ keys fs ↔ k ∈ claimed_weather_keys).
Proof.
  eexists _, _. split; [reflexivity|]. split; [reflexivity|]. split; [reflexivity|].
  intros H. specialize (H (lit "raw")). destruct H as [H _].
  assert (Hin : lit "raw" ∈ claimed_weather_keys).
  { apply H. apply list_elem_of_In. vm_compute. tauto. }
  apply list_elem_of_In in Hin. vm_compute in Hin.
  repeat (destruct Hin as [Hin | Hin]; [discriminate Hin|]). exact Hin.
Qed.

(** *** The chat endpoint *)

Lemma startsWith_app (p s : jsstring) : startsWith p (p ++ s) = true.
Proof. induction p as [|c p IH]; [done|]. simpl. by rewrite N.eqb_refl. Qed.

Lemma authMiddleware_authenticated (w : World) (req : request) (next : M response) :
  authenticated w req → authMiddleware w req next = next.
Proof.
  intros (t & decoded & Ha & Ht & Hv). unfold authMiddleware.
  rewrite Ha. cbn [from_option id]. rewrite startsWith_app.
  change 7%nat with (length (lit "Bearer ")). rewrite drop_app_length.
  destruct t; [done|]. by rewrite Hv.
Qed.

Lemma strict_eq_str_true (v : value) (s : jsstring) :
  strict_eq_str v s = true → v = Str s.
Proof.
  destruct v; simpl; try discriminate. unfold streq.
  intros H. apply bool_decide_eq_true in H. by subst.
Qed.

(** The provider after the destructuring default of line 252. *)
Lemma provider_not_named (given : value) (name : jsstring) :
  given ≠ Str name → name ≠ lit "groq" →
  strict_eq_str (match given with Undefined => Str (lit "groq") | _ => given end) name
  = false.
Proof.
  intros Hg Hn. apply not_true_is_false. intros H.
  apply strict_eq_str_true in H. destruct given; try done.
  injection H as H. by symmetry in H.
Qed.

(** C2.  An authenticated chat request whose provider id is omitted or is
    none of gemini, deepseek and huggingface is served by groq: no other
    provider is called, a request that passes validation makes exactly the
    groq completion call on its message list, and every success response
    reports [provider: "groq"]. *)
Theorem chat_unnamed_provider_served_by_groq (w : World) (req : request) (given : value) :
  method req = lit "POST" → path req = Some ApiChat →
  authenticated w req →
  get_field (body req) (lit "provider") = Ok given →
  not_a_named_provider given →
  let message := get_field_opt (body req) (lit "message") in
  let messages := get_field_opt (body req) (lit "messages") in
  let groq_call :=
    GroqCreate (completion_args (lit "llama-3.1-8b-instant")
                                (chatMessages message messages)) in
  (∀ c, c ∈ calls (app w req) → c = groq_call) ∧
  (truthy message = true ∨ is_Some (nonempty_array messages) →
   calls (app w req) = [groq_call]) ∧
  (∀ resp, outcome (app w req) = Ok resp → status resp = 200 →
     ∃ aiReply, json resp = Obj [(lit "reply", aiReply);
                                 (lit "provider", Str (lit "groq"))]).
Proof.
  intros Hm Hp Hauth Hg (Hn1 & Hn2 & Hn3) message messages groq_call.
  rewrite (app_post w req Hm), Hp, (authMiddleware_authenticated w req _ Hauth).
  destruct (chat w req) as [r t] eqn:Hrun. unfold outcome, calls. cbn [fst snd].
  unfold chat in Hrun.
  rewrite (get_field_total _ _ (lit "message") _ Hg),
          (get_field_total _ _ (lit "messages") _ Hg), Hg in Hrun.
  fold message messages in Hrun.
  cbv [mbind M_bind lift] in Hrun.
  rewrite (provider_not_named given (lit "gemini") Hn1) in Hrun by done.
  rewrite (provider_not_named given (lit "deepseek") Hn2) in Hrun by done.
  rewrite (provider_not_named given (lit "huggingface") Hn3) in Hrun by done.
  fold groq_call in Hrun.
  run_cases Hrun.
  all: injection Hrun as <- <-.
  all: repeat split.
  all: try done.
  all: try by (intros c Hc;
               first [by apply not_elem_of_nil in Hc
                     | by apply list_elem_of_singleton in Hc]).
  all: try by (intros resp [= <-] Hs; first [discriminate Hs | by eexists]).
  intros [Hv | Hv]; [discriminate Hv|].
  match goal with H : bool_decide _ = false |- _ => by apply bool_decide_eq_false in H end.
Qed.

Lemma chat_unnamed_provider_served_by_groq_witness :
  let req := Sample.unknown_provider_request in
  let w := Sample.server in
  (authenticated w req ∧
   get_field (body req) (lit "provider") = Ok (Str (lit "unknown-provider")) ∧
   not_a_named_provider (Str (lit "unknown-provider"))) ∧
  outcome (app w req)
    = Ok {| status := 200;
            json := Obj [(lit "reply", Str (lit "Hello!"));
                         (lit "provider", Str (lit "groq"))] |} ∧
  (∀ c, c ∈ calls (app w req) → is_upstream c = true ∧ ∃ args, c = GroqCreate args).
Proof.
  intros req w.
  assert (Ha : authenticated w req).
  { exists (lit "header.payload.signature"), (Obj [(lit "id", Str (lit "66a1"));
                     (lit "email", Str (lit "ada@example.com"))]).
    split; [reflexivity|]. split; [discriminate | reflexivity]. }
  assert (Hn : not_a_named_provider (Str (lit "unknown-provider"))).
  { repeat split; discriminate. }
  split; [repeat split; [exact Ha | apply Hn..]|].
  split; [reflexivity|].
  intros c Hc.
  destruct (chat_unnamed_provider_served_by_groq w req _ eq_refl eq_refl Ha eq_refl Hn)
    as (Hcalls & _ & _).
  rewrite (Hcalls c Hc). split; [reflexivity | by eexists].
Defined.

(** *** A single message becomes a two-element list *)

Lemma truthy_str_nonempty (s : jsstring) : s ≠ [] → truthy (Str s) = true.
Proof. by destruct s. Qed.

Lemma gemini_transcript_two (w : World) (text : jsstring) :
  gemini_transcript w
    [chat_message (lit "system") (Str default_system_prompt);
     chat_message (lit "user") (Str text)]
  = Ok ((toUpperCase w (lit "system") ++ lit ": " ++ default_system_prompt)
        ++ [0x0A] ++ (toUpperCase w (lit "user") ++ lit ": " ++ text)).
Proof. reflexivity. Qed.

Lemma hf_transcript_two (w : World) (text : jsstring) :
  hf_transcript
    [chat_message (lit "system") (Str default_system_prompt);
     chat_message (lit "user") (Str text)]
  = Ok (lit "system: " ++ default_system_prompt ++ [0x0A] ++ lit "user: " ++ text).
Proof. reflexivity. Qed.

(** C8 (as amended).  An authenticated chat request that supplies a single
    message (a non-empty text) and no non-empty [messages] array makes the
    handler build the two-element list of one system message with the
    default system prompt followed by one user message with the supplied
    text, and call the selected provider with it: groq and deepseek receive
    the list itself, gemini and huggingface receive the two-line transcript
    printed from it. *)
Theorem chat_single_message_forwarded (w : World) (req : request) (text : jsstring) :
  method req = lit "POST" → path req = Some ApiChat →
  authenticated w req →
  get_field (body req) (lit "message") = Ok (Str text) → text ≠ [] →
  nonempty_array (get_field_opt (body req) (lit "messages")) = None →
  let given := get_field_opt (body req) (lit "provider") in
  let two := [Obj [(lit "role", Str (lit "system"));
                   (lit "content", Str default_system_prompt)];
              Obj [(lit "role", Str (lit "user"));
                   (lit "content", Str text)]] in
  chatMessages (Str text) (get_field_opt (body req) (lit "messages")) = two ∧
  (not_a_named_provider given →
   calls (app w req)
     = [GroqCreate (Obj [(lit "model", Str (lit "llama-3.1-8b-instant"));
                         (lit "messages", Arr two);
                         (lit "max_tokens", Num (lit "500"));
                         (lit "temperature", Num (lit "0.7"))])]) ∧
  (given = Str (lit "deepseek") →
   calls (app w req)
     = [DeepseekCreate (Obj [(lit "model", Str (lit "deepseek-chat"));
                             (lit "messages", Arr two);
                             (lit "max_tokens", Num (lit "500"));
                             (lit "temperature", Num (lit "0.7"))])]) ∧
  (given = Str (lit "gemini") →
   calls (app w req)
     = [GeminiGenerate (lit "gemini-2.0-flash")
          ((toUpperCase w (lit "system") ++ lit ": " ++ default_system_prompt)
           ++ [0x0A] ++ (toUpperCase w (lit "user") ++ lit ": " ++ text))]) ∧
  (given = Str (lit "huggingface") →
   calls (app w req)
     = [Fetch (hf_chat_request w
                 (Str (lit "system: " ++ default_system_prompt
                       ++ [0x0A] ++ lit "user: " ++ text)))]).
Proof.
  intros Hm Hp Hauth Hmsg Ht Hnone given two.
  assert (Htwo : chatMessages (Str text) (get_field_opt (body req) (lit "messages")) = two).
  { unfold chatMessages. by rewrite Hnone. }
  split; [exact Htwo|].
  rewrite (app_post w req Hm), Hp, (authMiddleware_authenticated w req _ Hauth).
  assert (Hrun : ∃ r t, chat w req = (r, t) ∧ calls (chat w req) = t).
  { destruct (chat w req) as [r t]. by exists r, t. }
  destruct Hrun as (r & t & Hrun & ->).
  unfold chat in Hrun.
  rewrite (get_field_total _ _ (lit "messages") _ Hmsg),
          (get_field_total _ _ (lit "provider") _ Hmsg), Hmsg in Hrun.
  fold given in Hrun. cbv [mbind M_bind lift] in Hrun.
  rewrite Htwo, (truthy_str_nonempty text Ht) in Hrun. cbn [negb andb] in Hrun.
  repeat split.
  - intros (Hn1 & Hn2 & Hn3).
    rewrite (provider_not_named given (lit "gemini") Hn1) in Hrun by done.
    rewrite (provider_not_named given (lit "deepseek") Hn2) in Hrun by done.
    rewrite (provider_not_named given (lit "huggingface") Hn3) in Hrun by done.
    run_cases Hrun. all: by injection Hrun as <- <-.
  - intros Hgiven. rewrite Hgiven in Hrun.
    change (strict_eq_str (Str (lit "deepseek")) (lit "gemini")) with false in Hrun.
    change (strict_eq_str (Str (lit "deepseek")) (lit "deepseek")) with true in Hrun.
    run_cases Hrun. all: by injection Hrun as <- <-.
  - intros Hgiven. rewrite Hgiven in Hrun.
    change (strict_eq_str (Str (lit "gemini")) (lit "gemini")) with true in Hrun.
    rewrite (gemini_transcript_two w text : gemini_transcript w two = _) in Hrun.
    run_cases Hrun. all: by injection Hrun as <- <-.
  - intros Hgiven. rewrite Hgiven in Hrun.
    change (strict_eq_str (Str (lit "huggingface")) (lit "gemini")) with false in Hrun.
    change (strict_eq_str (Str (lit "huggingface")) (lit "deepseek")) with false in Hrun.
    change (strict_eq_str (Str (lit "huggingface")) (lit "huggingface")) with true in Hrun.
    rewrite (hf_transcript_two w text : hf_transcript two = _) in Hrun.
    run_cases Hrun. all: by injection Hrun as <- <-.
Qed.

Lemma chat_single_message_forwarded_witness :
  let req := Sample.single_message_request in
  let w := Sample.server in
  (authenticated w req ∧
   get_field (body req) (lit "message") = Ok (Str (lit "Hi")) ∧
   nonempty_array (get_field_opt (body req) (lit "messages")) = None) ∧
  calls (app w req)
    = [GeminiGenerate (lit "gemini-2.0-flash")
         (lit "SYSTEM: " ++ default_system_prompt ++ [0x0A] ++ lit "USER: Hi")].
Proof.
  intros req w.
  assert (Ha : authenticated w req).
  { exists (lit "header.payload.signature"), (Obj [(lit "id", Str (lit "66a1"));
                     (lit "email", Str (lit "ada@example.com"))]).
    split; [reflexivity|]. split; [discriminate | reflexivity]. }
  split; [repeat split; [exact Ha | reflexivity..]|].
  assert (Hne : lit "Hi" ≠ []) by discriminate.
  destruct (chat_single_message_forwarded w req (lit "Hi")
              eq_refl eq_refl Ha eq_refl Hne eq_refl)
    as (_ & _ & _ & Hgemini & _).
  exact (Hgemini eq_refl).
Defined.

(** C8 (as stated) fails: with provider gemini the single-message request
    makes one outside call, [generateContent] on a prompt string, and no
    call hands any service a message list. *)
Lemma single_message_gemini_counterexample :
  authenticated Sample.server Sample.single_message_request ∧
  get_field (body Sample.single_message_request) (lit "message") = Ok (Str (lit "Hi")) ∧
  get_field (body Sample.single_message_request) (lit "messages") = Ok Undefined ∧
  upstream_calls (app Sample.server Sample.single_message_request)
    = [GeminiGenerate (lit "gemini-2.0-flash")
         (lit "SYSTEM: " ++ default_system_prompt ++ [0x0A] ++ lit "USER: Hi")] ∧
  ¬ (∃ c l, c ∈ upstream_calls (app Sample.server Sample.single_message_request) ∧
            carries_messages c l).
Proof.
  split.
  { exists (lit "header.payload.signature"), (Obj [(lit "id", Str (lit "66a1"));
                     (lit "email", Str (lit "ada@example.com"))]).
    split; [reflexivity|]. split; [discriminate | reflexivity]. }
  split; [reflexivity|]. split; [reflexivity|].
  assert (E : upstream_calls (app Sample.server Sample.single_message_request)
              = [GeminiGenerate (lit "gemini-2.0-flash")
                   (lit "SYSTEM: " ++ default_system_prompt ++ [0x0A] ++ lit "USER: Hi")])
    by (vm_compute; reflexivity).
  split; [exact E|].
  intros (c & l & Hc & Hl). rewrite E in Hc.
  apply list_elem_of_singleton in Hc. subst c. exact Hl.
Qed.

End ServerFacts.

(** *** The chat collection under the handlers' updaters *)

Section ClientFacts.
Import JS Spec Client.

Lemma find_fmap {A} (p : A → bool) (f : A → A) (l : list A) :
  (∀ x, p (f x) = p x) → find p (f <$> l) = f <$> find p l.
Proof.
  intros Hp. induction l as [|x l IH]; [done|].
  simpl. rewrite Hp. destruct (p x); [done | exact IH].
Qed.

(** An updater that keeps ids moves the active chat along with it. *)
Lemma activeChat_fmap (w : World) (st st' : State) (f : Chat → Chat) :
  chats st ≠ [] →
  chats st' = f <$> chats st →
  activeChatId st' = activeChatId st →
  (∀ c, id (f c) = id c) →
  activeChat w st' = f (activeChat w st).
Proof.
  intros Hne Hc Ha Hid. unfold activeChat. rewrite Hc, Ha.
  rewrite find_fmap by (intros x; by rewrite Hid).
  destruct (find _ (chats st)); [done|].
  by destruct (chats st).
Qed.

Lemma activeChat_position (w : World) (st : State) :
  chats st ≠ [] → ∃ i, chats st !! i = Some (activeChat w st).
Proof.
  intros Hne. apply list_elem_of_lookup. unfold activeChat.
  destruct (find _ (chats st)) as [c|] eqn:Hf.
  - apply find_some in Hf. apply list_elem_of_In. tauto.
  - destruct (chats st); [done|]. apply list_elem_of_here.
Qed.

(** An updater guarded by [chat.id === target] changes the chat at the
    position of the target... *)
Lemma guarded_update_at (g : Chat → Chat) (cs : list Chat) (i : nat) (c : Chat) :
  cs !! i = Some c →
  ((λ chat, if streq (id chat) (id c) then g chat else chat) <$> cs) !! i
  = Some (g c).
Proof.
  intros Hi. rewrite list_lookup_fmap, Hi. simpl.
  unfold streq. by rewrite bool_decide_eq_true_2.
Qed.

(** ... and, ids being distinct, no chat at another position. *)
Lemma guarded_update_other (g : Chat → Chat) (cs : list Chat) (i j : nat) (c : Chat) :
  NoDup (id <$> cs) → cs !! i = Some c → j ≠ i →
  ((λ chat, if streq (id chat) (id c) then g chat else chat) <$> cs) !! j
  = cs !! j.
Proof.
  intros Hnd Hi Hne. rewrite list_lookup_fmap.
  destruct (cs !! j) as [c'|] eqn:Hj; [|done]. simpl.
  unfold streq. destruct (bool_decide (id c' = id c)) eqn:Hb; [|done].
  apply bool_decide_eq_true in Hb. exfalso. apply Hne.
  apply (NoDup_lookup (id <$> cs) j i (id c) Hnd).
  - by rewrite list_lookup_fmap, Hj, <- Hb.
  - by rewrite list_lookup_fmap, Hi.
Qed.

(** When the ids of the collection are distinct, [clearCurrentChat] leaves
    the active chat with exactly one message, the initial bot greeting, and
    the title [New chat]; the active chat stays at its position with its id
    and creation time, the collection keeps its length, and every other
    chat is unchanged. *)
Lemma clearCurrentChat_distinct_ids (w : World) (st : State) :
  well_formed (chats st) →
  let st' := clearCurrentChat w st in
  ∃ i,
    chats st !! i = Some (activeChat w st) ∧
    chats st' !! i = Some (activeChat w st') ∧
    messages (activeChat w st') = [greeting] ∧
    title (activeChat w st') = lit "New chat" ∧
    id (activeChat w st') = id (activeChat w st) ∧
    createdAt (activeChat w st') = createdAt (activeChat w st) ∧
    length (chats st') = length (chats st) ∧
    activeChatId st' = activeChatId st ∧
    ∀ j, j ≠ i → chats st' !! j = chats st !! j.
Proof.
  intros [Hne Hnd] st'.
  destruct (activeChat_position w st Hne) as [i Hi]. exists i.
  set (f := λ chat, if streq (id chat) (id (activeChat w st))
                    then with_title_messages new_chat_title [greeting] chat
                    else chat).
  assert (Hc : chats st' = f <$> chats st) by reflexivity.
  assert (Ha : activeChat w st' = f (activeChat w st)).
  { apply activeChat_fmap; [done | done | done |].
    intros c. unfold f. by destruct (streq _ _). }
  assert (Hf : f (activeChat w st)
               = with_title_messages new_chat_title [greeting] (activeChat w st)).
  { unfold f, streq. by rewrite bool_decide_eq_true_2. }
  rewrite Ha, Hf, Hc. repeat split; try done.
  - exact (guarded_update_at (with_title_messages new_chat_title [greeting]) _ _ _ Hi).
  - by rewrite length_fmap.
  - intros j Hj.
    exact (guarded_update_other (with_title_messages new_chat_title [greeting])
             _ i j _ Hnd Hi Hj).
Qed.

(** C7.  [createNewChat] takes the id of a chat from the clock, so two
    chats made in one millisecond have the same id.  After two such clicks
    on [New chat] and one message sent, the collection holds the two sample
    chats and two chats with the id [1700000009000], both with the
    conversation; the active chat is the first of the two, at position 2.
    [clearCurrentChat] resets it, and resets the chat at position 3 as
    well: a chat other than the active one is changed. *)
Theorem clearCurrentChat_resets_twin_chat :
  let w := Sample.browser Scenario.greeted in
  let st := Scenario.twins in
  let cleared :=
    {| id := lit "1700000009000"; title := lit "New chat";
       createdAt := 1700000009001; messages := [greeting] |} in
  chats st = [Sample.first_chat; Sample.second_chat; Scenario.twin; Scenario.twin] ∧
  length (messages Scenario.twin) = 3%nat ∧
  chats st !! 2%nat = Some (activeChat w st) ∧
  chats (clearCurrentChat w st)
    = [Sample.first_chat; Sample.second_chat; cleared; cleared] ∧
  chats (clearCurrentChat w st) !! 3%nat ≠ chats st !! 3%nat.
Proof.
  intros w st cleared.
  assert (Hst : chats st
                = [Sample.first_chat; Sample.second_chat; Scenario.twin; Scenario.twin])
    by (vm_compute; reflexivity).
  assert (Hcl : chats (clearCurrentChat w st)
                = [Sample.first_chat; Sample.second_chat; cleared; cleared])
    by (vm_compute; reflexivity).
  split; [exact Hst|]. split; [reflexivity|].
  split; [vm_compute; reflexivity|]. split; [exact Hcl|].
  rewrite Hcl, Hst. cbn [lookup list_lookup]. intros Heq.
  apply (f_equal (from_option (λ c, length (messages c)) 0%nat)) in Heq.
  vm_compute in Heq. discriminate Heq.
Qed.

(** *** sendMessage past its guard *)

Lemma accepted_guard (st : State) :
  accepted st →
  (negb (truthy (Str (trim (input st))))
   && negb (bool_decide (is_Some (imageFile st))) || loading st) = false.
Proof.
  intros [[Ht | Hi] ->]; rewrite orb_false_r.
  - by destruct (trim (input st)).
  - rewrite (bool_decide_eq_true_2 _ Hi). apply andb_false_r.
Qed.

(** Past the guard, the handler adds the user's message to the chats with
    the active id and sends one request; then it adds one bot message and
    resets [loading], unless the updater that was to add it throws. *)
Lemma sendMessage_accepted (w : World) (st : State) :
  accepted st →
  let st' := (sendMessage w st).1 in
  let sent := appendUserMessage (id (activeChat w st)) (userText_of st) (chats st) in
  chats st'
    = match reply_queued w st with
      | Appends m => appendMessage (id (activeChat w st)) m sent
      | Fails _ => sent
      end ∧
  activeChatId st' = activeChatId st ∧
  loading st' = match reply_queued w st with Appends _ => false | Fails _ => true end ∧
  input st' = [] ∧
  ∃ rest, (sendMessage w st).2 = HttpPost (request_sent w st) :: rest ∧
          ∀ r, HttpPost r ∉ rest.
Proof.
  intros Hacc. unfold sendMessage, reply_queued, request_sent.
  rewrite (accepted_guard st Hacc).
  destruct (streq (mode st) (lit "image")).
  - destruct (image_attempt w _) as [[m|e]|e]; cbn [fst snd]; repeat split.
    + exists []. split; [done|]. intros r Hr. by apply not_elem_of_nil in Hr.
    + exists [RenderError e]. split; [done|].
      intros r Hr. by apply list_elem_of_singleton in Hr.
    + exists []. split; [done|]. intros r Hr. by apply not_elem_of_nil in Hr.
  - destruct (chat_attempt w st _) as [m|e]; cbn [fst snd]; repeat split.
    + exists (speakText w st (text m)). split; [done|].
      intros r Hr. unfold speakText in Hr.
      destruct (negb (voiceEnabled st)); [by apply not_elem_of_nil in Hr|].
      destruct (negb (speechSynthesis_in_window w)); [by apply not_elem_of_nil in Hr|].
      by apply list_elem_of_singleton in Hr.
    + exists []. split; [done|]. intros r Hr. by apply not_elem_of_nil in Hr.
Qed.

(** The two updaters of a send, as one function on chats. *)
Lemma send_updaters (target userText : jsstring) (m : Message) (cs : list Chat) :
  appendMessage target m (appendUserMessage target userText cs)
  = (λ chat, if streq (id chat) target
             then with_title_messages
                    (if streq (title chat) new_chat_title
                     then deriveTitle userText else title chat)
                    (messages chat ++ [user_message userText; m]) chat
             else chat) <$> cs.
Proof.
  unfold appendMessage, appendUserMessage. rewrite <- list_fmap_compose.
  apply list_fmap_ext. intros _ chat _. simpl.
  destruct (streq (id chat) target) eqn:Hid; simpl.
  - rewrite Hid. unfold with_title_messages. simpl.
    by rewrite <- app_assoc.
  - by rewrite Hid.
Qed.

(** The collection after a send that passes the guard: one function on
    chats, applied to every chat. *)
Lemma sendMessage_chats (w : World) (st : State) :
  accepted st →
  chats (sendMessage w st).1
  = (λ chat, if streq (id chat) (id (activeChat w st))
             then with_title_messages
                    (if streq (title chat) new_chat_title
                     then deriveTitle (userText_of st) else title chat)
                    (messages chat
                     ++ user_message (userText_of st) :: reply_messages w st) chat
             else chat) <$> chats st.
Proof.
  intros Hacc. destruct (sendMessage_accepted w st Hacc) as (Hc & _).
  rewrite Hc. unfold reply_messages.
  destruct (reply_queued w st) as [m|e]; [apply send_updaters|].
  unfold appendUserMessage. apply list_fmap_ext. intros _ chat _. simpl.
  by destruct (streq (id chat) _).
Qed.

(** C6 (as amended).  When a message is sent to the active chat while its
    title has not been derived yet (it is still [New chat]), the title
    becomes the message trimmed, with runs of whitespace collapsed to single
    spaces, and then: its first 40 characters followed by the ellipsis
    [...] if it is longer than 40, itself if it has 40 characters or fewer.
    In particular the 55-character message [Explain recursion in simple
    terms for a beginner please] gives its first 40 characters followed by
    the ellipsis. *)
Theorem first_message_derives_title (w : World) (st : State) :
  chats st ≠ [] →
  accepted st →
  title (activeChat w st) = lit "New chat" →
  let message := userText_of st in
  let normalized := collapse_whitespace (trim message) in
  let st' := (sendMessage w st).1 in
  title (activeChat w st') = spec_title message ∧
  ((40 < length normalized)%nat →
   title (activeChat w st') = take 40 normalized ++ lit "...") ∧
  ((length normalized ≤ 40)%nat → title (activeChat w st') = normalized) ∧
  (input st = example_message → imageFile st = None →
   length example_message = 55%nat ∧
   title (activeChat w st') = take 40 example_message ++ lit "..." ∧
   title (activeChat w st') = lit "Explain recursion in simple terms for a ...").
Proof.
  intros Hne Hacc Ht message normalized st'.
  destruct (sendMessage_accepted w st Hacc) as (_ & Ha & _).
  pose proof (sendMessage_chats w st Hacc) as Hc.
  fold st' in Hc, Ha.
  assert (Htitle : title (activeChat w st') = spec_title message).
  { rewrite (activeChat_fmap w st st' _ Hne Hc Ha).
    - unfold streq. rewrite bool_decide_eq_true_2 by done.
      cbn [title with_title_messages]. rewrite Ht.
      fold (streq new_chat_title new_chat_title).
      change (streq new_chat_title new_chat_title) with true.
      apply deriveTitle_spec.
    - intros c. by destruct (streq _ _). }
  rewrite Htitle. unfold spec_title. fold normalized.
  split; [reflexivity|].
  split; [intros Hlong; by rewrite decide_True|].
  split; [intros Hshort; rewrite decide_False; [done | lia]|].
  intros Hin Him. subst normalized message. unfold userText_of.
  rewrite Hin, Him. repeat split; reflexivity.
Qed.

Lemma first_message_derives_title_witness :
  let w := Sample.browser Sample.offline in
  let st := Sample.state example_message false (lit "general") in
  (chats st ≠ [] ∧ accepted st ∧ title (activeChat w st) = lit "New chat") ∧
  title (activeChat w (sendMessage w st).1)
    = lit "Explain recursion in simple terms for a ...".
Proof.
  intros w st.
  assert (Hne : chats st ≠ []) by discriminate.
  assert (Hacc : accepted st).
  { split; [left; discriminate | reflexivity]. }
  split; [repeat split; [exact Hne | apply Hacc.. ]|].
  destruct (first_message_derives_title w st Hne Hacc eq_refl)
    as (_ & _ & _ & Hex).
  destruct (Hex eq_refl eq_refl) as (_ & _ & Htitle). exact Htitle.
Defined.

(** C6 (as stated) fails on its example: the message is not 44 characters
    long, so it is not a 44-character message whose title is its first 40
    characters and an ellipsis. *)
Lemma example_message_counterexample :
  ¬ (length example_message = 44%nat ∧
     deriveTitle example_message = take 40 example_message ++ lit "...").
Proof. intros [Hlen _]. vm_compute in Hlen. discriminate Hlen. Qed.

(** *** A failed send *)

Lemma or_else_truthy (a b : value) : truthy b = true → truthy (or_else a b) = true.
Proof. intros Hb. unfold or_else. by destruct (truthy a) eqn:Ha. Qed.














(** What the theorem leaves aside: in image mode, an answer whose [error]
    is an object with a [toString] of its own makes the queued updater
    throw.  The user's message stays, no bot message is added and [loading]
    stays on. *)
Lemma image_send_unprintable_error :
  let w := Sample.browser Scenario.unprintable in
  let st := Sample.state (lit "a red fox") false (lit "image") in
  send_failed w st ∧ ¬ error_prints w st ∧
  (sendMessage w st).2 = [HttpPost (request_sent w st); RenderError TypeError] ∧
  messages (activeChat w (sendMessage w st).1)
    = [greeting; user_message (lit "a red fox")] ∧
  loading (sendMessage w st).1 = true.
Proof.
  intros w st.
  split; [right; eexists; split; reflexivity|].
  split; [|repeat split; reflexivity].
  intros H. destruct (H eq_refl _ _ eq_refl eq_refl) as [printed Hp].
  discriminate Hp.
Qed.

End ClientFacts.


(* ===================================================================== *)
(** ** Further properties of server.js *)
(* ===================================================================== *)

Section ServerExtras.
Import JS Spec Server.

Lemma startsWith_split (p s : jsstring) :
  startsWith p s = true → s = p ++ drop (length p) s.
Proof.
  revert s. induction p as [|a p IH]; intros s H; [done|].
  destruct s as [|b s]; [discriminate|]. simpl in H.
  apply andb_prop in H as [Hab Hps]. apply N.eqb_eq in Hab. subst b.
  simpl. f_equal. by apply IH.
Qed.

(** X1.  A POST to /api/chat that does not carry a valid bearer token is
    answered with status 401 and one of the middleware's two error
    messages, and the handler is not run: no outside call is made. *)
Theorem chat_requires_credential (w : World) (req : request) :
  method req = lit "POST" → path req = Some ApiChat →
  ¬ authenticated w req →
  ∃ msg,
    outcome (app w req)
      = Ok {| status := 401; json := Obj [(lit "error", Str msg)] |} ∧
    (msg = lit "No token, authorization denied" ∨ msg = lit "Token is not valid") ∧
    (authorization req = None → msg = lit "No token, authorization denied") ∧
    calls (app w req) = [].
Proof.
  intros Hm Hp Hno. rewrite (app_post w req Hm), Hp. unfold authMiddleware.
  destruct (authorization req) as [h|] eqn:Hh; cbn [from_option id].
  - destruct (startsWith (lit "Bearer ") h) eqn:Hs.
    + apply startsWith_split in Hs.
      change (length (lit "Bearer ")) with 7%nat in Hs.
      destruct (drop 7 h) as [|c t] eqn:Hd.
      * eexists. split; [reflexivity|]. split; [by left|]. by split.
      * destruct (jwt_verify w (c :: t) _) as [decoded|e] eqn:Hv.
        -- exfalso. apply Hno. exists (c :: t), decoded.
           split; [by rewrite Hh, <- Hs|]. by split.
        -- eexists. split; [reflexivity|]. split; [by right|]. by split.
    + eexists. split; [reflexivity|]. split; [by left|]. by split.
  - eexists. split; [reflexivity|]. split; [by left|]. by split.
Qed.

Lemma chat_requires_credential_witness :
  let req := Sample.post ApiChat None (Obj [(lit "message", Str (lit "Hi"))]) in
  ¬ authenticated Sample.server req ∧
  calls (app Sample.server req) = [].
Proof.
  intros req.
  assert (Hno : ¬ authenticated Sample.server req).
  { intros (t & d & Ha & _). discriminate Ha. }
  split; [exact Hno|].
  destruct (chat_requires_credential Sample.server req eq_refl eq_refl Hno)
    as (msg & _ & _ & _ & Hcalls).
  exact Hcalls.
Defined.

(** *** The chat endpoint *)

Lemma chat_post_authenticated (b : value) :
  authenticated Sample.server (SampleExtra.chat_post b) ∧
  authenticated SampleExtra.quiet_groq (SampleExtra.chat_post b) ∧
  authenticated SampleExtra.failing_groq (SampleExtra.chat_post b).
Proof.
  repeat split; exists (lit "header.payload.signature"), SampleExtra.token_payload;
    (split; [reflexivity|]; split; [discriminate | reflexivity]).
Qed.

(** X2.  An authenticated chat request with neither a truthy [message] nor
    a non-empty [messages] array is answered with status 400, and no
    provider is called. *)
Theorem chat_rejects_empty_request (w : World) (req : request) (message : value) :
  method req = lit "POST" → path req = Some ApiChat →
  authenticated w req →
  get_field (body req) (lit "message") = Ok message →
  truthy message = false →
  nonempty_array (get_field_opt (body req) (lit "messages")) = None →
  outcome (app w req)
    = Ok {| status := 400;
            json := Obj [(lit "error",
                          Str (lit "Either `message` or `messages` is required"))] |} ∧
  calls (app w req) = [].
Proof.
  intros Hm Hp Hauth Hmsg Ht Hnone.
  rewrite (app_post w req Hm), Hp, (authMiddleware_authenticated w req _ Hauth).
  unfold chat.
  rewrite Hmsg, (get_field_total _ _ (lit "messages") _ Hmsg),
          (get_field_total _ _ (lit "provider") _ Hmsg).
  cbv [mbind M_bind lift]. rewrite Ht, Hnone. split; reflexivity.
Qed.

Lemma chat_rejects_empty_request_witness :
  let req := SampleExtra.chat_post (Obj [(lit "message", Str []); (lit "messages", Arr [])]) in
  authenticated Sample.server req ∧
  calls (app Sample.server req) = [].
Proof.
  intros req.
  pose proof (proj1 (chat_post_authenticated (body req))) as Ha.
  split; [exact Ha|].
  exact (proj2 (chat_rejects_empty_request Sample.server req (Str [])
                  eq_refl eq_refl Ha eq_refl eq_refl eq_refl)).
Defined.

(** X3.  Whatever is asked of /api/chat, an answer is 200 with a reply and
    a provider, or 400, 401 or 500 with a truthy [error]: the fields the
    client reads. *)
Theorem chat_response_shape (w : World) (req : request) (resp : response) :
  method req = lit "POST" → path req = Some ApiChat →
  outcome (app w req) = Ok resp →
  (status resp = 200 ∧
   ∃ aiReply provider,
     json resp = Obj [(lit "reply", aiReply); (lit "provider", provider)]) ∨
  ((status resp = 400 ∨ status resp = 401 ∨ status resp = 500) ∧
   ∃ msg, json resp = Obj [(lit "error", msg)] ∧ truthy msg = true).
Proof.
  intros Hm Hp. rewrite (app_post w req Hm), Hp.
  destruct (authMiddleware w req (chat w req)) as [r t] eqn:Hrun.
  unfold outcome. cbn [fst]. intros ->.
  unfold authMiddleware in Hrun.
  destruct (authorization req) as [h|]; cbn [from_option id] in Hrun.
  2: { injection Hrun as <- <-. right. split; [tauto|]. by eexists. }
  destruct (startsWith (lit "Bearer ") h).
  2: { injection Hrun as <- <-. right. split; [tauto|]. by eexists. }
  destruct (drop 7 h) as [|c tok].
  { injection Hrun as <- <-. right. split; [tauto|]. by eexists. }
  destruct (jwt_verify w (c :: tok) _).
  2: { injection Hrun as <- <-. right. split; [tauto|]. by eexists. }
  unfold chat in Hrun. run_cases Hrun.
  all: try discriminate Hrun.
  all: injection Hrun as <- <-.
  all: try (left; split; [reflexivity|]; by eexists _, _).
  all: right; (split; [cbn [status]; tauto|]); eexists; (split; [reflexivity|]).
  all: try done.
  all: by apply or_else_truthy.
Qed.

Lemma chat_response_shape_witness :
  let req := Sample.unknown_provider_request in
  ∃ resp, outcome (app Sample.server req) = Ok resp ∧ status resp = 200.
Proof.
  intros req. eexists. split; [reflexivity|].
  destruct (chat_response_shape Sample.server req _ eq_refl eq_refl eq_refl)
    as [[Hs _] | [[Hs | [Hs | Hs]] _]]; first [exact Hs | discriminate Hs].
Defined.

(** X4.  A chat request that names gemini, deepseek or huggingface is
    served by that provider alone: every outside call goes to its service,
    there is at most one, and every success response reports the name that
    was asked for. *)
Theorem chat_named_provider_reports_itself (w : World) (req : request) (name : jsstring) :
  method req = lit "POST" → path req = Some ApiChat →
  authenticated w req →
  get_field (body req) (lit "provider") = Ok (Str name) →
  name = lit "gemini" ∨ name = lit "deepseek" ∨ name = lit "huggingface" →
  (∀ c, c ∈ calls (app w req) → SpecExtra.served_by name c) ∧
  (length (calls (app w req)) ≤ 1)%nat ∧
  (∀ resp, outcome (app w req) = Ok resp → status resp = 200 →
     ∃ aiReply, json resp = Obj [(lit "reply", aiReply); (lit "provider", Str name)]).
Proof.
  intros Hm Hp Hauth Hg Hname.
  rewrite (app_post w req Hm), Hp, (authMiddleware_authenticated w req _ Hauth).
  destruct (chat w req) as [r t] eqn:Hrun. unfold outcome, calls. cbn [fst snd].
  unfold chat in Hrun.
  rewrite (get_field_total _ _ (lit "message") _ Hg),
          (get_field_total _ _ (lit "messages") _ Hg), Hg in Hrun.
  cbv [mbind M_bind lift] in Hrun.
  destruct Hname as [-> | [-> | ->]].
  - change (strict_eq_str (Str (lit "gemini")) (lit "gemini")) with true in Hrun.
    run_cases Hrun.
    all: injection Hrun as <- <-.
    all: repeat split; try done; try (cbn [length]; lia).
    all: try by (intros c Hc;
                 first [by apply not_elem_of_nil in Hc
                       | apply list_elem_of_singleton in Hc; by subst c]).
    all: by (intros resp [= <-] Hs; first [discriminate Hs | by eexists]).
  - change (strict_eq_str (Str (lit "deepseek")) (lit "gemini")) with false in Hrun.
    change (strict_eq_str (Str (lit "deepseek")) (lit "deepseek")) with true in Hrun.
    run_cases Hrun.
    all: injection Hrun as <- <-.
    all: repeat split; try done; try (cbn [length]; lia).
    all: try by (intros c Hc;
                 first [by apply not_elem_of_nil in Hc
                       | apply list_elem_of_singleton in Hc; by subst c]).
    all: by (intros resp [= <-] Hs; first [discriminate Hs | by eexists]).
  - change (strict_eq_str (Str (lit "huggingface")) (lit "gemini")) with false in Hrun.
    change (strict_eq_str (Str (lit "huggingface")) (lit "deepseek")) with false in Hrun.
    change (strict_eq_str (Str (lit "huggingface")) (lit "huggingface")) with true in Hrun.
    run_cases Hrun.
    all: injection Hrun as <- <-.
    all: repeat split; try done; try (cbn [length]; lia).
    all: try by (intros c Hc;
                 first [by apply not_elem_of_nil in Hc
                       | apply list_elem_of_singleton in Hc; by subst c]).
    all: by (intros resp [= <-] Hs; first [discriminate Hs | by eexists]).
Qed.

Lemma chat_named_provider_reports_itself_witness :
  let req := Sample.single_message_request in
  authenticated Sample.server req ∧
  ∀ c, c ∈ calls (app Sample.server req) → SpecExtra.served_by (lit "gemini") c.
Proof.
  intros req.
  pose proof (proj1 (chat_post_authenticated (body req))) as Ha.
  split; [exact Ha|].
  exact (proj1 (chat_named_provider_reports_itself Sample.server req (lit "gemini")
                  eq_refl eq_refl Ha eq_refl (or_introl eq_refl))).
Defined.

Lemma nonempty_array_cons (v : value) (l : list value) :
  nonempty_array v = Some l → ∃ x l', l = x :: l'.
Proof.
  destruct v as [| | | | |items|]; try discriminate.
  destruct items as [|x items]; [discriminate|]. intros [= <-]. by eexists _, _.
Qed.

Lemma map_result_cons_inv {A B} (f : A → result B) (x : A) (l : list A) (ys : list B) :
  map_result f (x :: l) = Ok ys → ∃ y ys', f x = Ok y ∧ ys = y :: ys'.
Proof.
  simpl. destruct (f x) as [y|]; [|discriminate].
  cbv [mbind result_bind]. destruct (map_result f l) as [ys'|]; [|discriminate].
  intros [= <-]. by exists y, ys'.
Qed.

Lemma join_cons_nonempty (sep a : jsstring) (l : list jsstring) :
  a ≠ [] → join sep (a :: l) ≠ [].
Proof. destruct a; [done|]. by destruct l. Qed.

(** A transcript of at least one message is never empty. *)
Lemma hf_transcript_nonempty (x : value) (l : list value) (t : jsstring) :
  hf_transcript (x :: l) = Ok t → t ≠ [].
Proof.
  unfold hf_transcript. cbv [mbind result_bind].
  destruct (map_result _ (x :: l)) as [lines|] eqn:Hl; [|discriminate].
  intros [= <-]. apply map_result_cons_inv in Hl as (y & ys & Hy & ->).
  apply join_cons_nonempty.
  cbv [mbind result_bind mret result_ret] in Hy.
  destruct (get_field x (lit "role")); [|discriminate].
  destruct (to_string _); [|discriminate].
  destruct (get_field x (lit "content")); [|discriminate].
  destruct (to_string _); [|discriminate].
  injection Hy as <-. intros H. apply app_eq_nil in H as [_ H]. discriminate H.
Qed.

(** X5.  When a chat request carries a non-empty [messages] array, its
    [message] field plays no part: two requests that differ only there are
    handled alike, call for call and answer for answer. *)
Theorem chat_messages_take_precedence (w : World) (req1 req2 : request)
    (messages given message1 message2 : value) :
  method req1 = lit "POST" → path req1 = Some ApiChat →
  method req2 = lit "POST" → path req2 = Some ApiChat →
  authorization req1 = authorization req2 →
  get_field (body req1) (lit "messages") = Ok messages →
  get_field (body req2) (lit "messages") = Ok messages →
  is_Some (nonempty_array messages) →
  get_field (body req1) (lit "provider") = Ok given →
  get_field (body req2) (lit "provider") = Ok given →
  get_field (body req1) (lit "message") = Ok message1 →
  get_field (body req2) (lit "message") = Ok message2 →
  app w req1 = app w req2.
Proof.
  intros Hm1 Hp1 Hm2 Hp2 Ha Hl1 Hl2 [l Hl] Hg1 Hg2 Hx1 Hx2.
  rewrite (app_post w req1 Hm1), (app_post w req2 Hm2), Hp1, Hp2.
  assert (Hchat : chat w req1 = chat w req2).
  { unfold chat. rewrite Hl1, Hl2, Hg1, Hg2, Hx1, Hx2.
    cbv [mbind M_bind lift]. unfold chatMessages. rewrite Hl.
    rewrite (bool_decide_eq_true_2 (is_Some (Some l))) by eauto.
    cbn [negb]. rewrite !andb_false_r.
    destruct (strict_eq_str _ (lit "gemini")); [done|].
    destruct (strict_eq_str _ (lit "deepseek")); [done|].
    destruct (strict_eq_str _ (lit "huggingface")); [|done].
    destruct (hf_transcript l) as [t|e] eqn:Ht; [|done].
    destruct (nonempty_array_cons _ _ Hl) as (x & l' & ->).
    pose proof (hf_transcript_nonempty x l' t Ht) as Hne.
    unfold or_else. by rewrite (truthy_str_nonempty t Hne). }
  unfold authMiddleware. by rewrite Ha, Hchat.
Qed.

Lemma chat_messages_take_precedence_witness :
  let history := Arr [Obj [(lit "role", Str (lit "user")); (lit "content", Str (lit "Hi"))]] in
  let req1 := SampleExtra.chat_post (Obj [(lit "messages", history)]) in
  let req2 := SampleExtra.chat_post
                (Obj [(lit "messages", history); (lit "message", Str (lit "ignored"))]) in
  is_Some (nonempty_array history) ∧
  app Sample.server req1 = app Sample.server req2.
Proof.
  intros history req1 req2.
  assert (Hl : is_Some (nonempty_array history)) by (by eexists).
  split; [exact Hl|].
  exact (chat_messages_take_precedence Sample.server req1 req2 history Undefined
           Undefined (Str (lit "ignored"))
           eq_refl eq_refl eq_refl eq_refl eq_refl eq_refl eq_refl Hl
           eq_refl eq_refl eq_refl eq_refl).
Defined.

Lemma groq_request_run (w : World) (req : request) :
  SpecExtra.groq_request w req →
  app w req
  = catch
      (response ← perform (SpecExtra.groq_call req)
                          (groq_create w (completion_args (lit "llama-3.1-8b-instant")
                             (chatMessages (get_field_opt (body req) (lit "message"))
                                           (get_field_opt (body req) (lit "messages")))));
       aiReply ← lift (completion_reply response);
       respond 200 (chat_reply aiReply (Str (lit "groq"))))
      (λ e,
         let err := caught w e in
         errorMsg ← lift (if truthy (SpecExtra.upstream_message err)
                          then mret (SpecExtra.upstream_message err)
                          else own ← get_field err (lit "message");
                               mret (or_else own (Str (lit "Error contacting AI service"))));
         respond 500 (error_body errorMsg)).
Proof.
  intros (Hm & Hp & Hauth & (given & Hg & Hn1 & Hn2 & Hn3) & Hc).
  rewrite (app_post w req Hm), Hp, (authMiddleware_authenticated w req _ Hauth).
  unfold chat.
  rewrite (get_field_total _ _ (lit "message") _ Hg),
          (get_field_total _ _ (lit "messages") _ Hg), Hg.
  cbv [mbind M_bind lift catch].
  rewrite (provider_not_named given (lit "gemini") Hn1) by done.
  rewrite (provider_not_named given (lit "deepseek") Hn2) by done.
  rewrite (provider_not_named given (lit "huggingface") Hn3) by done.
  assert (Hv : negb (truthy (get_field_opt (body req) (lit "message")))
               && negb (bool_decide (is_Some (nonempty_array
                    (get_field_opt (body req) (lit "messages"))))) = false).
  { destruct Hc as [Ht | Hs].
    - by rewrite Ht.
    - rewrite (bool_decide_eq_true_2 _ Hs). apply andb_false_r. }
  rewrite Hv. unfold SpecExtra.groq_call, SpecExtra.upstream_message.
  cbv [perform respond mret M_ret].
  destruct (groq_create w _) as [response|e]; [|reflexivity].
  destruct (completion_reply response); reflexivity.
Qed.

(** X6.  When the groq SDK throws, the answer is status 500 and its error
    text is chosen in this order: the API's own message
    ([err.response.data.error.message]) when there is one, else
    [err.message], else a fixed text.  When what was thrown is [null] or
    [undefined], reading [err.message] throws inside the [catch] clause and
    the request is never answered. *)
Theorem chat_error_message_priority (w : World) (req : request) (e : exn) :
  SpecExtra.groq_request w req →
  (∀ args, groq_create w args = Throw e) →
  let err := caught w e in
  calls (app w req) = [SpecExtra.groq_call req] ∧
  (truthy (SpecExtra.upstream_message err) = true →
   outcome (app w req)
     = Ok (SpecExtra.server_error_response (SpecExtra.upstream_message err))) ∧
  (truthy (SpecExtra.upstream_message err) = false → nullish err = false →
   outcome (app w req)
     = Ok (SpecExtra.server_error_response
             (or_else (get_field_opt err (lit "message"))
                      (Str (lit "Error contacting AI service"))))) ∧
  (nullish err = true → outcome (app w req) = Throw TypeError).
Proof.
  intros Hreq Hthrow. cbv zeta.
  rewrite (groq_request_run w req Hreq), Hthrow.
  cbv [mbind M_bind perform catch lift outcome calls fst snd].
  generalize (caught w e). intros err.
  destruct (truthy (SpecExtra.upstream_message err)) eqn:Hu.
  - repeat split; try done.
    intros Hn. destruct err; try discriminate Hn; cbv in Hu; discriminate Hu.
  - destruct err; repeat split; try done.
Qed.

Lemma chat_error_message_priority_witness :
  let req := Sample.unknown_provider_request in
  let w := SampleExtra.failing_groq in
  SpecExtra.groq_request w req ∧
  outcome (app w req)
    = Ok (SpecExtra.server_error_response (Str (lit "429 rate limit reached"))).
Proof.
  intros req w.
  assert (Hreq : SpecExtra.groq_request w req).
  { split; [reflexivity|]. split; [reflexivity|].
    split; [exact (proj2 (proj2 (chat_post_authenticated (body req))))|].
    split.
    - exists (Str (lit "unknown-provider")). split; [reflexivity|].
      repeat split; discriminate.
    - left. reflexivity. }
  split; [exact Hreq|].
  destruct (chat_error_message_priority w req _ Hreq (λ _, eq_refl))
    as (_ & _ & Hmsg & _).
  exact (Hmsg eq_refl eq_refl).
Defined.

(** X7.  When groq answers, the reply is the content of the first choice;
    an empty [choices] array, a first choice without message or content, or
    an empty content all give the reply [No reply] with status 200.  An
    answer without a [choices] field makes [choices[0]] throw, and the
    request is answered with status 500 and the engine's error text. *)
Theorem chat_groq_reply_fallback (w : World) (req : request) (fields : list (jsstring * value)) :
  SpecExtra.groq_request w req →
  (∀ args, groq_create w args = Ok (Obj fields)) →
  (∀ rest first,
     lookup_field (lit "choices") fields = Arr (first :: rest) →
     outcome (app w req)
       = Ok {| status := 200;
               json := Obj [(lit "reply",
                             or_else (get_field_opt (get_field_opt first (lit "message"))
                                                    (lit "content"))
                                     (Str (lit "No reply")));
                            (lit "provider", Str (lit "groq"))] |}) ∧
  (lookup_field (lit "choices") fields = Arr [] →
   outcome (app w req)
     = Ok {| status := 200;
             json := Obj [(lit "reply", Str (lit "No reply"));
                          (lit "provider", Str (lit "groq"))] |}) ∧
  (lookup_field (lit "choices") fields = Undefined →
   outcome (app w req)
     = Ok (SpecExtra.server_error_response
             (or_else (Str (type_error_message w))
                      (Str (lit "Error contacting AI service"))))).
Proof.
  intros Hreq Hanswer. rewrite (groq_request_run w req Hreq), Hanswer.
  cbv [mbind M_bind perform lift outcome fst completion_reply result_bind get_field].
  repeat split.
  - intros rest first ->. reflexivity.
  - intros ->. reflexivity.
  - intros ->. reflexivity.
Qed.

Lemma chat_groq_reply_fallback_witness :
  let req := Sample.unknown_provider_request in
  let w := SampleExtra.quiet_groq in
  SpecExtra.groq_request w req ∧
  outcome (app w req)
    = Ok {| status := 200;
            json := Obj [(lit "reply", Str (lit "No reply"));
                         (lit "provider", Str (lit "groq"))] |}.
Proof.
  intros req w.
  assert (Hreq : SpecExtra.groq_request w req).
  { split; [reflexivity|]. split; [reflexivity|].
    split; [exact (proj1 (proj2 (chat_post_authenticated (body req))))|].
    split.
    - exists (Str (lit "unknown-provider")). split; [reflexivity|].
      repeat split; discriminate.
    - left. reflexivity. }
  split; [exact Hreq|].
  destruct (chat_groq_reply_fallback w req _ Hreq (λ _, eq_refl)) as (_ & Hempty & _).
  exact (Hempty eq_refl).
Defined.

End ServerExtras.

(** *** Registration and login *)

Section AuthExtras.
Import JS Spec Server.

(** Registration with a missing or empty name, email or password is
    answered with status 400 before the database is touched. *)
Lemma register_missing_field (w : World) (req : request) (name email password : value) :
  method req = lit "POST" → path req = Some ApiAuthRegister →
  get_field (body req) (lit "name") = Ok name →
  get_field (body req) (lit "email") = Ok email →
  get_field (body req) (lit "password") = Ok password →
  truthy name = false ∨ truthy email = false ∨ truthy password = false →
  outcome (app w req)
    = Ok {| status := 400;
            json := Obj [(lit "error", Str (lit "All fields are required"))] |} ∧
  calls (app w req) = [].
Proof.
  intros Hm Hp Hn He Hpw Hmissing.
  rewrite (app_post w req Hm), Hp. unfold register. rewrite Hn, He, Hpw.
  cbv [mbind M_bind lift].
  assert (Hv : negb (truthy name) || negb (truthy email) || negb (truthy password) = true).
  { destruct Hmissing as [-> | [-> | ->]]; simpl;
      [done | by rewrite orb_true_r | by rewrite orb_true_r]. }
  rewrite Hv. split; reflexivity.
Qed.

(** Registration with an email the store already has is answered with
    status 400 after the one lookup: nothing is hashed or created. *)
Lemma register_existing_email (w : World) (req : request)
    (name email password existing : value) :
  method req = lit "POST" → path req = Some ApiAuthRegister →
  get_field (body req) (lit "name") = Ok name →
  get_field (body req) (lit "email") = Ok email →
  get_field (body req) (lit "password") = Ok password →
  truthy name = true → truthy email = true → truthy password = true →
  User_findOne w (Obj [(lit "email", email)]) = Ok existing →
  truthy existing = true →
  outcome (app w req)
    = Ok {| status := 400;
            json := Obj [(lit "error", Str (lit "Email already in use"))] |} ∧
  calls (app w req) = [DbFindOne (Obj [(lit "email", email)])].
Proof.
  intros Hm Hp Hn He Hpw Tn Te Tp Hf Tx.
  rewrite (app_post w req Hm), Hp. unfold register. rewrite Hn, He, Hpw.
  cbv [mbind M_bind lift perform]. rewrite Tn, Te, Tp, Hf, Tx. split; reflexivity.
Qed.

(** X8.  Registration is refused with status 400 in two cases.  With a
    missing or empty name, email or password the answer is [All fields are
    required] and the database is not touched.  With an email the store
    already has the answer is [Email already in use] after the one lookup:
    nothing is hashed or created. *)
Theorem register_rejections (w : World) (req : request)
    (name email password : value) :
  method req = lit "POST" → path req = Some ApiAuthRegister →
  get_field (body req) (lit "name") = Ok name →
  get_field (body req) (lit "email") = Ok email →
  get_field (body req) (lit "password") = Ok password →
  (truthy name = false ∨ truthy email = false ∨ truthy password = false →
   outcome (app w req)
     = Ok {| status := 400;
             json := Obj [(lit "error", Str (lit "All fields are required"))] |} ∧
   calls (app w req) = []) ∧
  (∀ existing,
     truthy name = true → truthy email = true → truthy password = true →
     User_findOne w (Obj [(lit "email", email)]) = Ok existing →
     truthy existing = true →
     outcome (app w req)
       = Ok {| status := 400;
               json := Obj [(lit "error", Str (lit "Email already in use"))] |} ∧
     calls (app w req) = [DbFindOne (Obj [(lit "email", email)])]).
Proof.
  intros Hm Hp Hn He Hpw. split.
  - intros Hmissing. by apply (register_missing_field w req name email password).
  - intros existing Tn Te Tp Hf Tx.
    by apply (register_existing_email w req name email password existing).
Qed.

Lemma register_rejections_witness :
  let req := Sample.post ApiAuthRegister None
               (Obj [(lit "name", Str (lit "Ada")); (lit "email", Str (lit "ada@example.com"));
                     (lit "password", Str (lit "pw"))]) in
  calls (app Sample.server req) = [DbFindOne (Obj [(lit "email", Str (lit "ada@example.com"))])].
Proof.
  intros req.
  destruct (register_rejections Sample.server req
              (Str (lit "Ada")) (Str (lit "ada@example.com")) (Str (lit "pw"))
              eq_refl eq_refl eq_refl eq_refl eq_refl) as [_ Hexisting].
  exact (proj2 (Hexisting Sample.ada eq_refl eq_refl eq_refl eq_refl eq_refl)).
Defined.

(** X9.  A registration that goes through stores the bcrypt hash (cost
    10) in place of the password, and answers with the new user's id, name
    and email and a token: neither the password nor its hash is in the
    response. *)
Theorem register_stores_hash (w : World) (req : request)
    (name email password hashed user token : value) :
  method req = lit "POST" → path req = Some ApiAuthRegister →
  get_field (body req) (lit "name") = Ok name →
  get_field (body req) (lit "email") = Ok email →
  get_field (body req) (lit "password") = Ok password →
  truthy name = true → truthy email = true → truthy password = true →
  User_findOne w (Obj [(lit "email", email)]) = Ok Null →
  bcrypt_hash w password 10 = Ok hashed →
  User_create w (Obj [(lit "name", name); (lit "email", email); (lit "password", hashed)])
    = Ok user →
  nullish user = false →
  issue_token w user = Ok token →
  calls (app w req)
    = [DbFindOne (Obj [(lit "email", email)]);
       DbCreate (Obj [(lit "name", name); (lit "email", email); (lit "password", hashed)])] ∧
  outcome (app w req)
    = Ok {| status := 200;
            json := Obj [(lit "user",
                          Obj [(lit "id", get_field_opt user (lit "_id"));
                               (lit "name", get_field_opt user (lit "name"));
                               (lit "email", get_field_opt user (lit "email"))]);
                         (lit "token", token)] |}.
Proof.
  intros Hm Hp Hn He Hpw Tn Te Tp Hf Hh Hc Hu Ht.
  rewrite (app_post w req Hm), Hp. unfold register. rewrite Hn, He, Hpw.
  cbv [mbind M_bind lift perform]. rewrite Tn, Te, Tp, Hf. cbn [truthy orb negb].
  cbv iota. rewrite Hh, Hc, Ht.
  assert (Hs : session_body user token
               = Ok (Obj [(lit "user",
                          Obj [(lit "id", get_field_opt user (lit "_id"));
                               (lit "name", get_field_opt user (lit "name"));
                               (lit "email", get_field_opt user (lit "email"))]);
                         (lit "token", token)])).
  { unfold session_body. by destruct user. }
  rewrite Hs. split; reflexivity.
Qed.

Lemma register_stores_hash_witness :
  let req := Sample.post ApiAuthRegister None
               (Obj [(lit "name", Str (lit "Bob")); (lit "email", Str (lit "bob@example.com"));
                     (lit "password", Str (lit "pw"))]) in
  calls (app Sample.server req)
    = [DbFindOne (Obj [(lit "email", Str (lit "bob@example.com"))]);
       DbCreate (Obj [(lit "name", Str (lit "Bob")); (lit "email", Str (lit "bob@example.com"));
                      (lit "password", Str (lit "$2a$10$abcdefghijklmnopqrstuv"))])].
Proof.
  intros req.
  exact (proj1 (register_stores_hash Sample.server req
                  (Str (lit "Bob")) (Str (lit "bob@example.com")) (Str (lit "pw"))
                  _ _ _
                  eq_refl eq_refl eq_refl eq_refl eq_refl eq_refl eq_refl eq_refl
                  eq_refl eq_refl eq_refl eq_refl eq_refl)).
Defined.

(** X10.  A login with a stored email and a matching password is answered
    with the user's id, name and email and a token signed over the id and
    the email, with the expiry [JWT_EXPIRES_IN] or, when that is not set,
    seven days; the stored hash is not in the response. *)
Theorem login_success_issues_token (w : World) (req : request)
    (email password user token : value) :
  method req = lit "POST" → path req = Some ApiAuthLogin →
  get_field (body req) (lit "email") = Ok email →
  get_field (body req) (lit "password") = Ok password →
  User_findOne w (Obj [(lit "email", email)]) = Ok user →
  truthy user = true →
  bcrypt_compare w password (get_field_opt user (lit "password")) = Ok true →
  jwt_sign w
    (Obj [(lit "id", get_field_opt user (lit "_id"));
          (lit "email", get_field_opt user (lit "email"))])
    (env_value w (lit "JWT_SECRET"))
    (Obj [(lit "expiresIn",
           match env w (lit "JWT_EXPIRES_IN") with
           | Some (c :: d) => Str (c :: d)
           | _ => Str (lit "7d")
           end)]) = Ok token →
  outcome (app w req)
    = Ok {| status := 200;
            json := Obj [(lit "user",
                          Obj [(lit "id", get_field_opt user (lit "_id"));
                               (lit "name", get_field_opt user (lit "name"));
                               (lit "email", get_field_opt user (lit "email"))]);
                         (lit "token", token)] |} ∧
  calls (app w req) = [DbFindOne (Obj [(lit "email", email)])].
Proof.
  intros Hm Hp He Hpw Hf Tu Hc Hs.
  rewrite (app_post w req Hm), Hp. unfold login. rewrite He, Hpw.
  cbv [mbind M_bind lift perform]. rewrite Hf, Tu, (get_field_truthy _ _ Tu), Hc.
  cbn [negb]. cbv iota.
  assert (Ht : issue_token w user = Ok token).
  { unfold issue_token. rewrite !(get_field_truthy _ _ Tu).
    cbv [mbind result_bind]. rewrite <- Hs. do 3 f_equal.
    unfold env_value, or_else. destruct (env w (lit "JWT_EXPIRES_IN")) as [[|c d]|]; done. }
  rewrite Ht. unfold session_body. rewrite !(get_field_truthy _ _ Tu).
  split; reflexivity.
Qed.

Lemma login_success_issues_token_witness :
  let req := Sample.post ApiAuthLogin None
               (Obj [(lit "email", Str (lit "ada@example.com"));
                     (lit "password", Str (lit "correct horse"))]) in
  outcome (app Sample.server req)
    = Ok {| status := 200;
            json := Obj [(lit "user",
                          Obj [(lit "id", Str (lit "66a1"));
                               (lit "name", Str (lit "Ada"));
                               (lit "email", Str (lit "ada@example.com"))]);
                         (lit "token", Str (lit "header.payload.signature"))] |}.
Proof.
  intros req.
  exact (proj1 (login_success_issues_token Sample.server req _ _ Sample.ada _
                  eq_refl eq_refl eq_refl eq_refl eq_refl eq_refl eq_refl eq_refl)).
Defined.

(** X11.  A login during which the lookup or [bcrypt.compare] throws is
    answered with status 500 and [Server error]; so a stored email with a
    password that [bcrypt.compare] cannot take (a missing one, say) does
    not get the 400 an unknown email gets. *)
Theorem login_exception_is_server_error (w : World) (req : request)
    (email password : value) :
  method req = lit "POST" → path req = Some ApiAuthLogin →
  get_field (body req) (lit "email") = Ok email →
  get_field (body req) (lit "password") = Ok password →
  (∃ e, User_findOne w (Obj [(lit "email", email)]) = Throw e) ∨
  (∃ user e, User_findOne w (Obj [(lit "email", email)]) = Ok user ∧
             truthy user = true ∧
             bcrypt_compare w password (get_field_opt user (lit "password")) = Throw e) →
  outcome (app w req)
    = Ok {| status := 500; json := Obj [(lit "error", Str (lit "Server error"))] |}.
Proof.
  intros Hm Hp He Hpw Hthrow.
  rewrite (app_post w req Hm), Hp. unfold login. rewrite He, Hpw.
  cbv [mbind M_bind lift perform catch].
  destruct Hthrow as [[e Hf] | (user & e & Hf & Tu & Hc)].
  - by rewrite Hf.
  - by rewrite Hf, Tu, (get_field_truthy _ _ Tu), Hc.
Qed.

Lemma login_exception_is_server_error_witness :
  let req := Sample.post ApiAuthLogin None (Obj [(lit "email", Str (lit "ada@example.com"))]) in
  outcome (app Sample.server req)
    = Ok {| status := 500; json := Obj [(lit "error", Str (lit "Server error"))] |}.
Proof.
  intros req.
  apply (login_exception_is_server_error Sample.server req (Str (lit "ada@example.com")) Undefined);
    try reflexivity.
  right. eexists Sample.ada, _. repeat split; reflexivity.
Defined.

End AuthExtras.

(** *** Trimming twice *)

Section TrimFacts.
Import JS.

Lemma trim_start_no_leading (s : jsstring) : SpecExtra.no_leading_whitespace (trim_start s).
Proof.
  induction s as [|c s IH]; [done|].
  simpl. by destruct (is_whitespace c) eqn:Hc.
Qed.

Lemma trim_start_fixed (s : jsstring) : SpecExtra.no_leading_whitespace s → trim_start s = s.
Proof. destruct s as [|c s]; [done|]. simpl. by intros ->. Qed.

Lemma trim_end_no_leading (s : jsstring) :
  SpecExtra.no_leading_whitespace s → SpecExtra.no_leading_whitespace (trim_end s).
Proof.
  destruct s as [|c s]; [done|]. intros Hc. rewrite trim_end_cons.
  by destruct (forallb _ _).
Qed.

Lemma trim_end_idem (s : jsstring) : trim_end (trim_end s) = trim_end s.
Proof.
  unfold trim_end. rewrite reverse_involutive.
  by rewrite (trim_start_fixed _ (trim_start_no_leading _)).
Qed.

Lemma trim_idem (s : jsstring) : trim (trim s) = trim s.
Proof.
  unfold trim at 1.
  rewrite (trim_start_fixed (trim s)).
  - apply trim_end_idem.
  - apply trim_end_no_leading, trim_start_no_leading.
Qed.

End TrimFacts.

(** *** The weather and image gateways *)

Section GatewayExtras.
Import JS Spec Server.

(** X12.  The weather lookup of a non-blank city on a server without
    [WEATHER_API_KEY] is answered with status 500, and the weather API is
    not called. *)
Theorem weather_missing_key (w : World) (req : request) (s : jsstring) :
  method req = lit "POST" → path req = Some ApiToolsWeather →
  get_field (body req) (lit "city") = Ok (Str s) →
  trim s ≠ [] →
  truthy (env_value w (lit "WEATHER_API_KEY")) = false →
  outcome (app w req)
    = Ok {| status := 500;
            json := Obj [(lit "error", Str (lit "WEATHER_API_KEY is not set in .env"))] |} ∧
  calls (app w req) = [].
Proof.
  intros Hm Hp Hc Hs Hk.
  rewrite (app_post w req Hm), Hp. unfold weather. rewrite Hc. run_js.
  assert (Ts : truthy (Str s) = true).
  { destruct s; [|done]. by destruct Hs. }
  rewrite Ts, (truthy_str_nonempty _ Hs), Hk. split; reflexivity.
Qed.

Lemma weather_missing_key_witness :
  calls (app SampleExtra.no_weather_key Sample.weather_request) = [].
Proof.
  refine (proj2 (weather_missing_key SampleExtra.no_weather_key Sample.weather_request
                   (lit "Colombo") eq_refl eq_refl eq_refl _ eq_refl)).
  discriminate.
Defined.




(** X14.  Whitespace around the city does not matter: a weather request
    and the same request with the city already trimmed are handled alike,
    call for call and answer for answer. *)
Theorem weather_trims_city (w : World) (req1 req2 : request) (s : jsstring) :
  method req1 = lit "POST" → path req1 = Some ApiToolsWeather →
  method req2 = lit "POST" → path req2 = Some ApiToolsWeather →
  get_field (body req1) (lit "city") = Ok (Str s) →
  get_field (body req2) (lit "city") = Ok (Str (trim s)) →
  app w req1 = app w req2.
Proof.
  intros Hm1 Hp1 Hm2 Hp2 Hc1 Hc2.
  rewrite (app_post w req1 Hm1), (app_post w req2 Hm2), Hp1, Hp2.
  unfold weather. rewrite Hc1, Hc2.
  cbv [mbind M_bind lift result_bind call_trim mret result_ret to_string].
  rewrite trim_idem.
  destruct (trim s) as [|c t] eqn:Ht.
  - destruct s; reflexivity.
  - destruct s as [|a s]; [discriminate Ht|]. reflexivity.
Qed.

Lemma weather_trims_city_witness :
  app Sample.server
      (Sample.post ApiToolsWeather None (Obj [(lit "city", Str (lit "  Colombo "))]))
  = app Sample.server Sample.weather_request.
Proof.
  exact (weather_trims_city Sample.server
           (Sample.post ApiToolsWeather None (Obj [(lit "city", Str (lit "  Colombo "))]))
           Sample.weather_request (lit "  Colombo ")
           eq_refl eq_refl eq_refl eq_refl eq_refl eq_refl).
Defined.

(** X15.  An image request whose prompt is missing, empty or
    whitespace-only is answered with status 400, and the image model is not
    called. *)
Theorem image_blank_prompt_rejected (w : World) (req : request) (prompt : value) :
  method req = lit "POST" → path req = Some ApiImageGenerate →
  get_field (body req) (lit "prompt") = Ok prompt →
  blank_value prompt →
  outcome (app w req)
    = Ok {| status := 400; json := Obj [(lit "error", Str (lit "Prompt is required"))] |} ∧
  calls (app w req) = [].
Proof.
  intros Hm Hp Hc Hb.
  rewrite (app_post w req Hm), Hp. unfold image_generate. rewrite Hc.
  destruct Hb as [-> | (s & -> & Hs)].
  - split; reflexivity.
  - run_js. destruct (truthy (Str s)); [|split; reflexivity].
    rewrite (truthy_blank_str s Hs). split; reflexivity.
Qed.

Lemma image_blank_prompt_rejected_witness :
  calls (app Sample.server
           (Sample.post ApiImageGenerate None (Obj [(lit "prompt", Str (lit " "))]))) = [].
Proof.
  refine (proj2 (image_blank_prompt_rejected Sample.server
                   (Sample.post ApiImageGenerate None (Obj [(lit "prompt", Str (lit " "))]))
                   (Str (lit " ")) eq_refl eq_refl eq_refl _)).
  right. exists (lit " "). split; [reflexivity|]. repeat constructor.
Defined.

(** X16.  For a non-blank prompt the image route makes one request to the
    image model, with the prompt as it was sent (not trimmed).  A 2xx
    answer gives status 200 and the bytes as a PNG data URI; any other
    status gives 500 with [Image API failed], whatever the upstream status
    and body were; a request that throws gives 500 with [Image generation
    failed]. *)
Theorem image_generate_outcomes (w : World) (req : request) (s : jsstring) :
  method req = lit "POST" → path req = Some ApiImageGenerate →
  get_field (body req) (lit "prompt") = Ok (Str s) →
  trim s ≠ [] →
  let r := {| url := lit "https://api-inference.huggingface.co/models/stabilityai/stable-diffusion-2-1";
              fetch_method := lit "POST";
              fetch_authorization := Some (lit "Bearer " ++ env_text w (lit "HF_API_KEY"));
              fetch_body := Obj [(lit "inputs", Str s)] |} in
  calls (app w req) = [Fetch r] ∧
  (∀ fr bytes,
     fetch w r = Ok fr → ok fr = true → res_arrayBuffer fr = Ok bytes →
     outcome (app w req)
       = Ok {| status := 200;
               json := Obj [(lit "imageBase64",
                             Str (lit "data:image/png;base64," ++ base64 w bytes))] |}) ∧
  (∀ fr text,
     fetch w r = Ok fr → ok fr = false → res_text fr = Ok text →
     outcome (app w req)
       = Ok {| status := 500; json := Obj [(lit "error", Str (lit "Image API failed"))] |}) ∧
  (∀ e, fetch w r = Throw e →
     outcome (app w req)
       = Ok {| status := 500;
               json := Obj [(lit "error", Str (lit "Image generation failed"))] |}).
Proof.
  intros Hm Hp Hc Hs r.
  rewrite (app_post w req Hm), Hp. unfold image_generate. rewrite Hc.
  cbv [mbind M_bind lift result_bind call_trim mret result_ret].
  assert (Ts : truthy (Str s) = true).
  { destruct s; [|done]. by destruct Hs. }
  rewrite Ts, (truthy_str_nonempty _ Hs). cbn [negb]. cbv iota.
  change (hf_image_request w (Str s)) with r.
  cbv [perform catch outcome calls fst snd respond mret M_ret].
  repeat split.
  - destruct (fetch w r) as [fr|e]; [|reflexivity].
    destruct (negb (ok fr)).
    + by destruct (res_text fr).
    + by destruct (res_arrayBuffer fr).
  - intros fr bytes -> Hok ->. by rewrite Hok.
  - intros fr text -> Hok ->. by rewrite Hok.
  - intros e ->. reflexivity.
Qed.

Lemma image_generate_outcomes_witness :
  outcome (app SampleExtra.failing_upstream Sample.anonymous_image_request)
    = Ok {| status := 500; json := Obj [(lit "error", Str (lit "Image API failed"))] |}.
Proof.
  assert (Hs : trim (lit "a red fox") ≠ []) by discriminate.
  destruct (image_generate_outcomes SampleExtra.failing_upstream
              Sample.anonymous_image_request (lit "a red fox") eq_refl eq_refl eq_refl Hs)
    as (_ & _ & Hfail & _).
  exact (Hfail _ _ eq_refl eq_refl eq_refl).
Defined.

(** X17.  A city or a prompt that is truthy but not a string (a number, an
    array, an object) makes [.trim()] throw: the answer is status 500, not
    400, and nothing is called. *)
Theorem non_string_input_is_server_error (w : World) (req : request) (v : value) :
  method req = lit "POST" →
  truthy v = true → (∀ s, v ≠ Str s) →
  (path req = Some ApiToolsWeather → get_field (body req) (lit "city") = Ok v →
   outcome (app w req)
     = Ok {| status := 500;
             json := Obj [(lit "error", Str (lit "Failed to fetch weather"))] |} ∧
   calls (app w req) = []) ∧
  (path req = Some ApiImageGenerate → get_field (body req) (lit "prompt") = Ok v →
   outcome (app w req)
     = Ok {| status := 500;
             json := Obj [(lit "error", Str (lit "Image generation failed"))] |} ∧
   calls (app w req) = []).
Proof.
  intros Hm Tv Hns. rewrite (app_post w req Hm).
  assert (Ht : call_trim v = Throw TypeError).
  { destruct v; try done. by destruct (Hns s). }
  split; intros -> Hc.
  - unfold weather. rewrite Hc. cbv [mbind M_bind lift result_bind].
    rewrite Tv, Ht. split; reflexivity.
  - unfold image_generate. rewrite Hc. cbv [mbind M_bind lift result_bind].
    rewrite Tv, Ht. split; reflexivity.
Qed.

Lemma non_string_input_is_server_error_witness :
  outcome (app Sample.server
             (Sample.post ApiToolsWeather None (Obj [(lit "city", Num (lit "42"))])))
    = Ok {| status := 500;
            json := Obj [(lit "error", Str (lit "Failed to fetch weather"))] |}.
Proof.
  assert (Hns : ∀ s, Num (lit "42") ≠ Str s) by discriminate.
  destruct (non_string_input_is_server_error Sample.server
              (Sample.post ApiToolsWeather None (Obj [(lit "city", Num (lit "42"))]))
              (Num (lit "42")) eq_refl eq_refl Hns) as [Hweather _].
  exact (proj1 (Hweather eq_refl eq_refl)).
Defined.

End GatewayExtras.

(** *** Every route but the chat route always answers *)

Section AlwaysAnswer.
Import JS Spec Server.

(** X18.  Registration, login, the weather lookup and image generation
    answer every request: whatever the database, the libraries and the
    upstream services do, the handler ends with a response, of status 200,
    400 or 500, or, for the weather lookup alone, the non-2xx status of the
    weather API. *)
Theorem handlers_always_answer (w : World) (req : request) :
  method req = lit "POST" →
  path req = Some ApiAuthRegister ∨ path req = Some ApiAuthLogin ∨
  path req = Some ApiToolsWeather ∨ path req = Some ApiImageGenerate →
  ∃ resp,
    outcome (app w req) = Ok resp ∧
    (status resp = 200 ∨ status resp = 400 ∨ status resp = 500 ∨
     (path req = Some ApiToolsWeather ∧
      (200 <=? status resp) && (status resp <=? 299) = false)).
Proof.
  intros Hm Hp. rewrite (app_post w req Hm).
  destruct Hp as [Hp | [Hp | [Hp | Hp]]]; rewrite Hp.
  - destruct (register w req) as [r t] eqn:Hrun. unfold register in Hrun.
    run_cases Hrun. all: injection Hrun as <- <-; eexists; split; [reflexivity|].
    all: cbn [status]; tauto.
  - destruct (login w req) as [r t] eqn:Hrun. unfold login in Hrun.
    run_cases Hrun. all: injection Hrun as <- <-; eexists; split; [reflexivity|].
    all: cbn [status]; tauto.
  - destruct (weather w req) as [r t] eqn:Hrun. unfold weather in Hrun.
    run_cases Hrun. all: injection Hrun as <- <-; eexists; split; [reflexivity|].
    all: cbn [status]; tauto.
  - destruct (image_generate w req) as [r t] eqn:Hrun. unfold image_generate in Hrun.
    run_cases Hrun. all: injection Hrun as <- <-; eexists; split; [reflexivity|].
    all: cbn [status]; tauto.
Qed.

Lemma handlers_always_answer_witness :
  ∃ resp, outcome (app SampleExtra.failing_upstream Sample.weather_request) = Ok resp ∧
          status resp = 503.
Proof.
  destruct (handlers_always_answer SampleExtra.failing_upstream Sample.weather_request
              eq_refl (or_intror (or_intror (or_introl eq_refl)))) as (resp & Hr & _).
  exists resp. split; [exact Hr|].
  assert (E : outcome (app SampleExtra.failing_upstream Sample.weather_request)
              = Ok {| status := 503;
                      json := Obj [(lit "error", Str (lit "service unavailable"))] |})
    by reflexivity.
  rewrite E in Hr. by injection Hr as <-.
Defined.

End AlwaysAnswer.

(** *** The CORS middleware *)

Section CorsFacts.
Import JS Cors.

Lemma startsWith_iff (p s : jsstring) :
  startsWith p s = true ↔ ∃ rest, s = p ++ rest.
Proof.
  split.
  - intros H. eexists. by apply startsWith_split.
  - intros [rest ->]. apply startsWith_app.
Qed.

Lemma endsWith_iff (p s : jsstring) :
  endsWith p s = true ↔ ∃ front, s = front ++ p.
Proof.
  unfold endsWith. rewrite startsWith_iff. split.
  - intros [rest H]. exists (reverse rest).
    apply (inj reverse). by rewrite reverse_app, reverse_involutive.
  - intros [front ->]. exists (reverse front). by rewrite reverse_app.
Qed.

Lemma includes_iff (l : list jsstring) (x : jsstring) :
  includes l x = true ↔ x ∈ l.
Proof.
  unfold includes. rewrite existsb_exists. split.
  - intros (y & Hy & Heq). apply bool_decide_eq_true in Heq. subst y.
    by apply list_elem_of_In.
  - intros H. exists x. split; [by apply list_elem_of_In|].
    by apply bool_decide_eq_true.
Qed.

(** X19.  The CORS middleware sets its headers exactly for a non-empty
    Origin that is on the list, starts with [http://localhost] or ends with
    [.netlify.app], whatever else the origin holds (so
    [http://localhost.example.org] and any [*.netlify.app] site pass); the
    allowed origin is echoed as it came, never as a wildcard. *)
Theorem cors_headers_policy (origin : option jsstring) :
  (cors_headers origin ≠ [] ↔
   ∃ o, origin = Some o ∧ o ≠ [] ∧
        (o ∈ allowedOrigins ∨
         (∃ rest, o = lit "http://localhost" ++ rest) ∨
         (∃ front, o = front ++ lit ".netlify.app"))) ∧
  (∀ o, cors_headers (Some o) ≠ [] →
        cors_headers (Some o)
        = [(lit "Access-Control-Allow-Origin", o);
           (lit "Access-Control-Allow-Headers",
            lit "Origin, X-Requested-With, Content-Type, Accept, Authorization");
           (lit "Access-Control-Allow-Methods",
            lit "GET, POST, PUT, PATCH, DELETE, OPTIONS")]).
Proof.
  assert (Hallowed : ∀ o, origin_allowed o = true ↔
            (o ∈ allowedOrigins ∨ (∃ rest, o = lit "http://localhost" ++ rest) ∨
             (∃ front, o = front ++ lit ".netlify.app"))).
  { intros o. unfold origin_allowed. cbv zeta.
    rewrite !orb_true_iff, includes_iff, startsWith_iff, endsWith_iff. tauto. }
  split.
  - split.
    + destruct origin as [[|c o]|]; try done. simpl.
      destruct (origin_allowed (c :: o)) eqn:Ha; [|done].
      intros _. exists (c :: o). repeat split; [done|]. by apply Hallowed.
    + intros (o & -> & Hne & Ho). destruct o as [|c o]; [done|].
      simpl. apply Hallowed in Ho. by rewrite Ho.
  - intros [|c o]; [done|]. simpl.
    destruct (origin_allowed (c :: o)); [|done]. intros _. reflexivity.
Qed.

End CorsFacts.

(* ===================================================================== *)
(** ** Further properties of App.jsx *)
(* ===================================================================== *)

Section SessionExtras.
Import JS Spec Client ClientView.

Lemma guard_false_accepted (st : State) :
  (negb (truthy (Str (trim (input st))))
   && negb (bool_decide (is_Some (imageFile st))) || loading st) = false →
  accepted st.
Proof.
  intros H. apply orb_false_elim in H as [H Hl]. split; [|exact Hl].
  apply andb_false_elim in H as [H | H].
  - left. intros Ht. by rewrite Ht in H.
  - right. apply negb_false_iff, bool_decide_eq_true in H. exact H.
Qed.

(** Every run of [sendMessage] maps one function over the collection, and
    that function keeps a chat or appends to its messages. *)
Lemma sendMessage_maps (w : World) (st : State) :
  ∃ f : Chat → Chat,
    chats (sendMessage w st).1 = f <$> chats st ∧
    activeChatId (sendMessage w st).1 = activeChatId st ∧
    ∀ c, id (f c) = id c ∧ createdAt (f c) = createdAt c ∧
         ∃ added, messages (f c) = messages c ++ added.
Proof.
  destruct (negb (truthy (Str (trim (input st))))
            && negb (bool_decide (is_Some (imageFile st))) || loading st) eqn:Hg.
  - exists (λ c, c). unfold sendMessage. rewrite Hg. cbn [fst].
    split; [by rewrite list_fmap_id|]. split; [done|].
    intros c. repeat split. exists []. by rewrite app_nil_r.
  - destruct (sendMessage_accepted w st (guard_false_accepted st Hg)) as (_ & Ha & _).
    pose proof (sendMessage_chats w st (guard_false_accepted st Hg)) as Hc.
    eexists. split; [exact Hc|]. split; [exact Ha|].
    intros c. cbv beta. destruct (streq (id c) _).
    + repeat split. by eexists.
    + repeat split. exists []. by rewrite app_nil_r.
Qed.

(** X20.  [sendMessage] only ever appends: in every state and whatever the
    network does, each chat of the collection is still at its position
    afterwards, with its id and creation time, and its old messages are a
    prefix of its new ones. *)
Theorem sendMessage_appends_only (w : World) (st : State) (i : nat) (c : Chat) :
  chats st !! i = Some c →
  ∃ c', chats (sendMessage w st).1 !! i = Some c' ∧
        id c' = id c ∧ createdAt c' = createdAt c ∧
        messages c `prefix_of` messages c' ∧
        length (chats (sendMessage w st).1) = length (chats st).
Proof.
  intros Hi. destruct (sendMessage_maps w st) as (f & Hc & _ & Hf).
  exists (f c). rewrite Hc, list_lookup_fmap, Hi, length_fmap.
  destruct (Hf c) as (Hid & Hct & added & Hm).
  repeat split; try done. rewrite Hm. by exists added.
Qed.

Lemma sendMessage_appends_only_witness :
  let w := Sample.browser Sample.unauthorized in
  let st := Sample.state (lit "Hello there") false (lit "general") in
  ∃ c', chats (sendMessage w st).1 !! 1%nat = Some c' ∧
        messages Sample.second_chat `prefix_of` messages c'.
Proof.
  intros w st.
  destruct (sendMessage_appends_only w st 1 Sample.second_chat eq_refl)
    as (c' & Hc & _ & _ & Hp & _).
  by exists c'.
Defined.

(** X21.  [sendMessage] and [clearCurrentChat] keep the list of chat ids as
    it is, so they keep a collection well formed and the same chat
    active. *)
Theorem handlers_keep_ids (w : World) (st : State) :
  (id <$> chats (sendMessage w st).1) = (id <$> chats st) ∧
  (id <$> chats (clearCurrentChat w st)) = (id <$> chats st) ∧
  (well_formed (chats st) →
   well_formed (chats (sendMessage w st).1) ∧
   well_formed (chats (clearCurrentChat w st)) ∧
   id (activeChat w (sendMessage w st).1) = id (activeChat w st) ∧
   id (activeChat w (clearCurrentChat w st)) = id (activeChat w st)).
Proof.
  destruct (sendMessage_maps w st) as (f & Hc & Ha & Hf).
  assert (Hids : (id <$> chats (sendMessage w st).1) = (id <$> chats st)).
  { rewrite Hc, <- list_fmap_compose. apply list_fmap_ext.
    intros _ c _. simpl. apply Hf. }
  set (g := λ chat, if streq (id chat) (id (activeChat w st))
                    then with_title_messages new_chat_title [greeting] chat
                    else chat).
  assert (Hg : ∀ c, id (g c) = id c).
  { intros c. unfold g. by destruct (streq _ _). }
  assert (Hcc : chats (clearCurrentChat w st) = g <$> chats st) by reflexivity.
  assert (Hidc : (id <$> chats (clearCurrentChat w st)) = (id <$> chats st)).
  { rewrite Hcc, <- list_fmap_compose. apply list_fmap_ext.
    intros _ c _. simpl. apply Hg. }
  split; [exact Hids|]. split; [exact Hidc|].
  intros [Hne Hnd].
  assert (Hnil : ∀ (h : Chat → Chat), h <$> chats st ≠ []).
  { intros h H. apply fmap_nil_inv in H. by apply Hne. }
  split; [|split; [|split]].
  - split; [rewrite Hc; apply Hnil | by rewrite Hids].
  - split; [rewrite Hcc; apply Hnil | by rewrite Hidc].
  - rewrite (activeChat_fmap w st _ f Hne Hc Ha); [apply Hf | intros c; apply Hf].
  - by rewrite (activeChat_fmap w st _ g Hne Hcc eq_refl Hg).
Qed.

Lemma handlers_keep_ids_witness :
  let w := Sample.browser Sample.offline in
  let st := Sample.state (lit "Hello there") false (lit "general") in
  well_formed (chats st) ∧ well_formed (chats (sendMessage w st).1).
Proof.
  intros w st.
  assert (Hwf : well_formed (chats st)).
  { split; [discriminate|]. apply (bool_decide_unpack _). by vm_compute. }
  split; [exact Hwf|].
  destruct (handlers_keep_ids w st) as (_ & _ & H). exact (proj1 (H Hwf)).
Defined.

(** X22.  Once the active chat has a title other than [New chat], sending
    a message does not change it. *)
Theorem title_stable_once_derived (w : World) (st : State) :
  chats st ≠ [] →
  accepted st →
  title (activeChat w st) ≠ lit "New chat" →
  title (activeChat w (sendMessage w st).1) = title (activeChat w st).
Proof.
  intros Hne Hacc Ht.
  destruct (sendMessage_accepted w st Hacc) as (_ & Ha & _).
  pose proof (sendMessage_chats w st Hacc) as Hc.
  rewrite (activeChat_fmap w st _ _ Hne Hc Ha).
  - unfold streq at 1. rewrite bool_decide_eq_true_2 by done.
    cbn [title with_title_messages]. unfold streq.
    by rewrite bool_decide_eq_false_2.
  - intros c. cbv beta. by destruct (streq (id c) _).
Qed.

Lemma title_stable_once_derived_witness :
  let w := Sample.browser Sample.offline in
  let st := ClientView.selectChat Sample.first_chat
              (Sample.state (lit "And merge sort?") false (lit "general")) in
  title (activeChat w (sendMessage w st).1) = lit "Sorting".
Proof.
  intros w st.
  refine (title_stable_once_derived w st _ _ _); try discriminate.
  split; [left; discriminate | reflexivity].
Defined.

(** X23.  Clearing twice is clearing once. *)
Theorem clearCurrentChat_idempotent (w : World) (st : State) :
  clearCurrentChat w (clearCurrentChat w st) = clearCurrentChat w st.
Proof.
  set (g := λ chat, if streq (id chat) (id (activeChat w st))
                    then with_title_messages new_chat_title [greeting] chat
                    else chat).
  assert (Hg : ∀ c, id (g c) = id c).
  { intros c. unfold g. by destruct (streq _ _). }
  assert (Hcc : chats (clearCurrentChat w st) = g <$> chats st) by reflexivity.
  assert (Hid : id (activeChat w (clearCurrentChat w st)) = id (activeChat w st)).
  { destruct (decide (chats st = [])) as [He | Hne].
    - unfold activeChat. rewrite Hcc, He. reflexivity.
    - by rewrite (activeChat_fmap w st _ g Hne Hcc eq_refl Hg). }
  unfold clearCurrentChat at 1. rewrite Hid. fold g.
  unfold resetComposer, setChats. cbn [chats token activeChatId input loading mode
    selectedProvider searchTerm voiceEnabled imageFile imagePreview].
  change (chats (clearCurrentChat w st)) with (g <$> chats st).
  unfold clearCurrentChat, resetComposer, setChats. fold g.
  cbn [chats token activeChatId input loading mode
    selectedProvider searchTerm voiceEnabled imageFile imagePreview].
  f_equal. rewrite <- list_fmap_compose. apply list_fmap_ext.
  intros _ c _. simpl. unfold g at 1. rewrite Hg.
  unfold g. by destruct (streq (id c) _).
Qed.

(** When ids are distinct, the chat found for an id is the chat. *)
Lemma find_unique (cs : list Chat) (c : Chat) :
  NoDup (id <$> cs) → c ∈ cs →
  find (λ x, bool_decide (Some (id x) = Some (id c))) cs = Some c.
Proof.
  induction cs as [|x cs IH]; intros Hnd Hin; [by apply elem_of_nil in Hin|].
  simpl. rewrite fmap_cons in Hnd.
  pose proof (NoDup_cons_1_1 _ _ Hnd) as Hx. apply NoDup_cons_1_2 in Hnd.
  destruct (bool_decide (Some (id x) = Some (id c))) eqn:Hb.
  - apply bool_decide_eq_true in Hb. injection Hb as Hb.
    apply elem_of_cons in Hin as [-> | Hin]; [done|].
    exfalso. apply Hx. rewrite Hb. apply list_elem_of_fmap. by exists c.
  - apply bool_decide_eq_false in Hb.
    apply elem_of_cons in Hin as [-> | Hin]; [done|]. by apply IH.
Qed.

(** In a collection with distinct ids, clicking a chat of the list makes
    that very chat the active one, and nothing else changes. *)
Lemma selectChat_activates (w : World) (st : State) (c : Chat) :
  NoDup (id <$> chats st) → c ∈ chats st →
  activeChat w (selectChat c st) = c ∧
  chats (selectChat c st) = chats st.
Proof.
  intros Hnd Hin. split; [|reflexivity].
  unfold activeChat, selectChat. cbn [chats activeChatId setActiveChatId].
  by rewrite (find_unique _ _ Hnd Hin).
Qed.

End SessionExtras.

(** *** New chats, titles and the home screen *)

Section ChatExtras.
Import JS Spec Client ClientView.

Lemma streq_refl (s : jsstring) : streq s s = true.
Proof. unfold streq. by apply bool_decide_eq_true. Qed.

Lemma find_app_none {A} (p : A → bool) (l k : list A) :
  find p l = None → find p (l ++ k) = find p k.
Proof.
  induction l as [|x l IH]; [done|]. simpl.
  destruct (p x); [discriminate | exact IH].
Qed.

Lemma find_app_some {A} (p : A → bool) (l k : list A) (x : A) :
  find p l = Some x → find p (l ++ k) = Some x.
Proof.
  induction l as [|y l IH]; [discriminate|]. simpl.
  destruct (p y); [done | exact IH].
Qed.

Lemma find_id_none (cs : list Chat) (i : jsstring) :
  i ∉ (id <$> cs) → find (λ c, bool_decide (Some (id c) = Some i)) cs = None.
Proof.
  induction cs as [|c cs IH]; [done|]. intros Hi. simpl.
  apply not_elem_of_cons in Hi as [Hc Hi].
  rewrite bool_decide_eq_false_2; [by apply IH|]. intros [= H]. by apply Hc.
Qed.

Lemma find_id_some (cs : list Chat) (i : jsstring) :
  i ∈ (id <$> cs) →
  ∃ c, find (λ c, bool_decide (Some (id c) = Some i)) cs = Some c ∧ c ∈ cs ∧ id c = i.
Proof.
  induction cs as [|c cs IH]; [intros H; by apply elem_of_nil in H|].
  intros Hi. simpl. destruct (bool_decide (Some (id c) = Some i)) eqn:Hb.
  - apply bool_decide_eq_true in Hb. injection Hb as Hb.
    exists c. repeat split; [apply list_elem_of_here | exact Hb].
  - apply bool_decide_eq_false in Hb. rewrite fmap_cons in Hi.
    apply elem_of_cons in Hi as [-> | Hi]; [done|].
    destruct (IH Hi) as (c' & Hf & Hin & Hid). exists c'.
    repeat split; [exact Hf | by apply list_elem_of_further | exact Hid].
Qed.

(** X24.  [handleNewChat] appends a chat that holds the greeting alone and
    empties the composer and the search box.  When the id it takes from the
    clock is not in use, the new chat is the active one, the home screen
    shows, and distinct ids stay distinct.  When a chat of the collection
    already has that id (two chats made in one millisecond), the active
    chat is that older chat, not the new one. *)
Theorem handleNewChat_activates (w : World) (st : State) :
  let st' := handleNewChat w st in
  let fresh := createNewChat (now w) (now_again w) in
  chats st' = chats st ++ [fresh] ∧
  input st' = [] ∧ imageFile st' = None ∧ searchTerm st' = [] ∧
  (id fresh ∉ (id <$> chats st) →
   activeChat w st' = fresh ∧
   messages (activeChat w st') = [greeting] ∧
   hasUserMessages w st' = false ∧
   (NoDup (id <$> chats st) → well_formed (chats st'))) ∧
  (id fresh ∈ (id <$> chats st) →
   activeChat w st' ∈ chats st ∧ id (activeChat w st') = id fresh).
Proof.
  intros st' fresh.
  assert (Hc : chats st' = chats st ++ [fresh]) by reflexivity.
  assert (Ha : activeChatId st' = Some (id fresh)) by reflexivity.
  do 4 (split; [reflexivity|]). split.
  - intros Hfresh.
    assert (Hact : activeChat w st' = fresh).
    { unfold activeChat. rewrite Hc, Ha.
      rewrite (find_app_none _ _ _ (find_id_none _ _ Hfresh)). simpl.
      by rewrite bool_decide_eq_true_2. }
    unfold hasUserMessages. rewrite Hact.
    split; [reflexivity|]. split; [reflexivity|]. split; [reflexivity|].
    intros Hnd. split.
    + rewrite Hc. by destruct (chats st).
    + rewrite Hc, fmap_app. apply list.NoDup_app.
      split; [exact Hnd|]. split; [|apply NoDup_singleton].
      intros x Hx Hx'. apply list_elem_of_singleton in Hx'. by subst x.
  - intros Hused.
    destruct (find_id_some _ _ Hused) as (c & Hf & Hin & Hid).
    unfold activeChat. rewrite Hc, Ha. by rewrite (find_app_some _ _ _ _ Hf).
Qed.

Lemma handleNewChat_activates_witness :
  let w := Sample.browser Sample.offline in
  let st := Sample.state (lit "draft") false (lit "general") in
  (id (createNewChat (now w) (now_again w)) ∉ (id <$> chats st)) ∧
  activeChat w (handleNewChat w st) = createNewChat 1700000009000 1700000009001.
Proof.
  intros w st.
  assert (Hfresh : id (createNewChat (now w) (now_again w)) ∉ (id <$> chats st)).
  { apply (bool_decide_unpack _). by vm_compute. }
  split; [exact Hfresh|].
  destruct (handleNewChat_activates w st) as (_ & _ & _ & _ & H & _).
  exact (proj1 (H Hfresh)).
Defined.

(** *** The shape of a derived title *)

Lemma replace_ws_runs_spaces (b : bool) (s : jsstring) (c : N) :
  c ∈ replace_ws_runs b s → is_whitespace c = true → c = 0x20.
Proof.
  revert b. induction s as [|a s IH]; intros b Hc Hw; [by apply elem_of_nil in Hc|].
  simpl in Hc. destruct (is_whitespace a) eqn:Ha.
  - destruct b; [by apply (IH true)|].
    apply elem_of_cons in Hc as [-> | Hc]; [done | by apply (IH true)].
  - apply elem_of_cons in Hc as [-> | Hc]; [congruence | by apply (IH false)].
Qed.

Lemma trim_start_subseteq (s : jsstring) (c : N) : c ∈ trim_start s → c ∈ s.
Proof.
  induction s as [|a s IH]; [done|]. simpl.
  destruct (is_whitespace a); [|done]. intros H. apply list_elem_of_further. by apply IH.
Qed.

Lemma trim_subseteq (s : jsstring) (c : N) : c ∈ trim s → c ∈ s.
Proof.
  unfold trim, trim_end. intros H. rewrite elem_of_reverse in H.
  apply trim_start_subseteq in H. rewrite elem_of_reverse in H.
  by apply trim_start_subseteq.
Qed.

Lemma replace_ws_runs_nonempty (s : jsstring) :
  s ≠ [] → replace_ws_runs false s ≠ [].
Proof. destruct s as [|c s]; [done|]. intros _. simpl. by destruct (is_whitespace c). Qed.

(** X25.  A derived title has at most 43 characters (40 and the ellipsis),
    does not start with whitespace, holds no whitespace other than single
    ordinary spaces between words (tabs and line breaks of the message are
    gone), and is not empty unless the message is blank. *)
Theorem deriveTitle_shape (message : jsstring) :
  (length (deriveTitle message) ≤ 43)%nat ∧
  SpecExtra.no_leading_whitespace (deriveTitle message) ∧
  (∀ c, c ∈ deriveTitle message → is_whitespace c = true → c = 0x20) ∧
  (trim message ≠ [] → deriveTitle message ≠ []).
Proof.
  unfold deriveTitle, slice0. cbv zeta.
  set (t := trim (collapse_whitespace message)).
  assert (Hlead : SpecExtra.no_leading_whitespace t).
  { apply trim_end_no_leading, trim_start_no_leading. }
  assert (Hsp : ∀ c, c ∈ t → is_whitespace c = true → c = 0x20).
  { intros c Hc. apply trim_subseteq in Hc. by apply (replace_ws_runs_spaces false message). }
  destruct (40 <? length t)%nat eqn:Hlen.
  - apply Nat.ltb_lt in Hlen. repeat split.
    + rewrite length_app, length_take.
      change (length (lit "...")) with 3%nat. lia.
    + destruct t as [|c t']; [simpl in Hlen; lia|]. exact Hlead.
    + intros c Hc Hw. apply elem_of_app in Hc as [Hc | Hc].
      * apply Hsp; [|exact Hw]. by apply (subseteq_take 40 t).
      * exfalso. vm_compute in Hc.
        repeat (apply elem_of_cons in Hc as [-> | Hc]; [discriminate Hw|]).
        by apply elem_of_nil in Hc.
    + intros _. destruct t; [simpl in Hlen; lia | done].
  - apply Nat.ltb_nlt in Hlen. repeat split; [lia | exact Hlead | exact Hsp |].
    intros Hne. subst t. rewrite trim_collapse. by apply replace_ws_runs_nonempty.
Qed.

(** X26.  After a send that passes the guard the active chat has a user
    message, so the transcript shows in place of the home screen; after
    [clearCurrentChat] it has none, and the home screen is back. *)
Theorem hasUserMessages_follows (w : World) (st : State) :
  chats st ≠ [] →
  hasUserMessages w (clearCurrentChat w st) = false ∧
  (accepted st → hasUserMessages w (sendMessage w st).1 = true).
Proof.
  intros Hne. split.
  - unfold hasUserMessages.
    assert (Hg : ∀ c, id ((λ chat, if streq (id chat) (id (activeChat w st))
                    then with_title_messages new_chat_title [greeting] chat
                    else chat) c) = id c).
    { intros c. cbv beta. by destruct (streq _ _). }
    rewrite (activeChat_fmap w st (clearCurrentChat w st) _ Hne eq_refl eq_refl Hg).
    cbv beta. by rewrite streq_refl.
  - intros Hacc. unfold hasUserMessages.
    destruct (sendMessage_accepted w st Hacc) as (_ & Ha & _).
    pose proof (sendMessage_chats w st Hacc) as Hc.
    rewrite (activeChat_fmap w st _ _ Hne Hc Ha).
    + cbv beta. rewrite streq_refl.
      cbn [messages with_title_messages]. rewrite existsb_app.
      apply orb_true_iff. right. reflexivity.
    + intros c. cbv beta. by destruct (streq (id c) _).
Qed.

Lemma hasUserMessages_follows_witness :
  let w := Sample.browser Sample.offline in
  let st := Sample.state (lit "Hello there") false (lit "general") in
  hasUserMessages w st = false ∧ hasUserMessages w (sendMessage w st).1 = true.
Proof.
  intros w st. split; [reflexivity|].
  refine (proj2 (hasUserMessages_follows w st _) _); [discriminate|].
  split; [left; discriminate | reflexivity].
Defined.

End ChatExtras.

(** *** What a send puts on the wire and what comes back *)

Section WireExtras.
Import JS Spec Client ClientView.

Lemma trim_start_nil_whitespace (s : jsstring) :
  trim_start s = [] → forallb is_whitespace s = true.
Proof.
  induction s as [|c s IH]; [done|]. simpl.
  destruct (is_whitespace c); [exact IH | discriminate].
Qed.

Lemma trim_nil_whitespace (s : jsstring) :
  trim s = [] → forallb is_whitespace s = true.
Proof.
  unfold trim, trim_end. intros H.
  apply (f_equal reverse) in H. rewrite reverse_involutive in H.
  change (reverse []) with (@nil N) in H.
  apply trim_start_nil_whitespace in H. rewrite forallb_reverse in H.
  pose proof (trim_start_no_leading s) as Hl.
  destruct (trim_start s) as [|c t] eqn:Ht.
  - by apply trim_start_nil_whitespace.
  - simpl in H, Hl. rewrite Hl in H. discriminate H.
Qed.

Lemma userText_not_blank (st : State) :
  accepted st → trim (userText_of st) ≠ [].
Proof.
  intros [Hsome _] Hblank. apply trim_nil_whitespace in Hblank.
  unfold userText_of in Hblank. rewrite forallb_app in Hblank.
  apply andb_prop in Hblank as [Hin Hnote].
  destruct (imageFile st) as [name|].
  - unfold attachment_note in Hnote. discriminate Hnote.
  - destruct Hsome as [Ht | [x Hx]]; [|discriminate Hx].
    apply Ht. apply trim_start_whitespace in Hin.
    rewrite <- (trim_idem (input st)). unfold trim at 1. rewrite Hin. reflexivity.
Qed.

(** X27.  What the client sends passes the server's validation: in image
    mode the prompt is a string that is not blank; in every other mode the
    body carries the selected provider and a non-empty [messages] array,
    made of the mode's system prompt, the active chat's transcript so far
    (bot messages as [assistant]) and the new text, which is the list the
    chat route hands on in place of its own default.  The Authorization
    header is [Bearer <token>] when a token is held and empty otherwise. *)
Theorem client_requests_pass_validation (w : World) (st : State) :
  accepted st →
  let r := request_sent w st in
  let entry (role : jsstring) (content : value) :=
    Obj [(lit "role", Str role); (lit "content", content)] in
  (streq (mode st) (lit "image") = true →
   http_url r = API_BASE w ++ lit "/api/image/generate" ∧
   get_field_opt (http_body r) (lit "prompt") = Str (userText_of st) ∧
   ¬ blank_value (Str (userText_of st))) ∧
  (streq (mode st) (lit "image") = false →
   http_url r = API_BASE w ++ lit "/api/chat" ∧
   get_field_opt (http_body r) (lit "provider") = Str (selectedProvider st) ∧
   is_Some (nonempty_array (get_field_opt (http_body r) (lit "messages"))) ∧
   Server.chatMessages (get_field_opt (http_body r) (lit "message"))
                       (get_field_opt (http_body r) (lit "messages"))
   = [entry (lit "system") (Str (getSystemPrompt st))]
     ++ ((λ m, entry (if streq (sender m) (lit "user")
                      then lit "user" else lit "assistant") (text m))
         <$> messages (activeChat w st))
     ++ [entry (lit "user") (Str (userText_of st))]) ∧
  http_authorization r
  = match token st with
    | Some (c :: t) => lit "Bearer " ++ c :: t
    | _ => []
    end.
Proof.
  intros Hacc r entry. subst r. unfold request_sent.
  split; [|split].
  - intros ->. split; [reflexivity|]. split; [reflexivity|].
    intros [H | (s & [= <-] & Hs)]; [discriminate H|].
    by apply (userText_not_blank st Hacc), trim_blank.
  - intros ->. split; [reflexivity|]. split; [reflexivity|].
    split; [by eexists | reflexivity].
  - by destruct (streq (mode st) (lit "image")).
Qed.

Lemma client_requests_pass_validation_witness :
  let w := Sample.browser Sample.offline in
  let st := Sample.state (lit "Hello there") false (lit "general") in
  accepted st ∧
  is_Some (nonempty_array (get_field_opt (http_body (request_sent w st)) (lit "messages"))).
Proof.
  intros w st.
  assert (Hacc : accepted st) by (split; [left; discriminate | reflexivity]).
  split; [exact Hacc|].
  destruct (client_requests_pass_validation w st Hacc) as (_ & Hchat & _).
  exact (proj1 (proj2 (proj2 (Hchat eq_refl)))).
Defined.



End WireExtras.

(** *** Storage keys and the weather widget *)

Section WidgetExtras.
Import JS Spec Client ClientView.

(** X29.  The storage key of a user is [wikum_ai_chats_] followed by the
    email: a user object and its email string give the same key, and two
    different non-empty emails never share one.  Without an email the key
    is the guest key, which is also the key of the email [guest]. *)
Theorem getChatsKey_separates_users :
  (∀ a, a ≠ [] → getChatsKey (Str a) = Ok (lit "wikum_ai_chats_" ++ a)) ∧
  (∀ a b, a ≠ [] → b ≠ [] → getChatsKey (Str a) = getChatsKey (Str b) → a = b) ∧
  (∀ fields a, lookup_field (lit "email") fields = Str a →
               getChatsKey (Obj fields) = getChatsKey (Str a)) ∧
  getChatsKey Null = Ok (lit "wikum_ai_chats_guest") ∧
  getChatsKey (Str []) = Ok (lit "wikum_ai_chats_guest") ∧
  getChatsKey (Str (lit "guest")) = getChatsKey Null.
Proof.
  assert (Hkey : ∀ a, a ≠ [] → getChatsKey (Str a) = Ok (lit "wikum_ai_chats_" ++ a)).
  { intros a Ha. unfold getChatsKey. by rewrite (truthy_str_nonempty a Ha). }
  split; [exact Hkey|]. split; [|split; [|by repeat split]].
  - intros a b Ha Hb. rewrite (Hkey a Ha), (Hkey b Hb). intros H.
    by injection H as H.
  - intros fields a Hf. unfold getChatsKey. cbn [get_field_opt]. by rewrite Hf.
Qed.

(** X30.  The weather widget sends nothing for a blank city.  Otherwise it
    posts the city as typed to /api/tools/weather once and ends with
    [weatherLoading] off; it holds data only after an ok answer, always
    with the error cleared; after an answer that is not ok it holds no data
    and a truthy error; after a request or a parse that fails it holds no
    data and [Network error]. *)
Theorem fetchWeather_outcome (w : World) (answer : weather_post → result http_response)
    (ws : Weather) :
  (blank (weatherCity ws) → fetchWeather w answer ws = (ws, [])) ∧
  (trim (weatherCity ws) ≠ [] →
   let r := {| weather_url := API_BASE w ++ lit "/api/tools/weather";
               weather_body := Obj [(lit "city", Str (weatherCity ws))] |} in
   let ws' := (fetchWeather w answer ws).1 in
   (fetchWeather w answer ws).2 = [r] ∧
   weatherLoading ws' = false ∧
   weatherCity ws' = weatherCity ws ∧
   (truthy (weatherData ws') = true →
    weatherError ws' = Str [] ∧
    ∃ res, answer r = Ok res ∧ ok res = true ∧ json res = Ok (weatherData ws')) ∧
   (∀ res, answer r = Ok res → ok res = false →
           weatherData ws' = Null ∧ truthy (weatherError ws') = true) ∧
   ((∃ e, answer r = Throw e) ∨ (∃ res e, answer r = Ok res ∧ json res = Throw e) →
    weatherData ws' = Null ∧ weatherError ws' = Str (lit "Network error"))).
Proof.
  split.
  - intros Hb. unfold fetchWeather. by rewrite (trim_blank _ Hb).
  - intros Hne r ws'. subst ws'. unfold fetchWeather.
    rewrite (truthy_str_nonempty _ Hne). cbn [negb].
    change (weather_request w ws) with r.
    cbv [mbind result_bind mret result_ret].
    destruct (answer r) as [res|e] eqn:Hres.
    + destruct (json res) as [data|e] eqn:Hjson.
      * destruct (ok res) eqn:Hok; cbn [negb].
        -- cbn [fst snd weatherData weatherError weatherLoading weatherCity].
           do 3 (split; [reflexivity|]). split; [|split].
           ++ intros _. split; [reflexivity|]. exists res. by rewrite Hjson.
           ++ intros res' Hr Hok'. injection Hr as <-. congruence.
           ++ intros [[e He] | (res' & e & Hr & He)]; [discriminate He|].
              injection Hr as <-. congruence.
        -- destruct (get_field data (lit "error")) as [err|e] eqn:Herr;
             cbn [fst snd weatherData weatherError weatherLoading weatherCity].
           ++ do 3 (split; [reflexivity|]). split; [|split].
              ** intros Ht. discriminate Ht.
              ** intros res' _ _. split; [reflexivity|]. by apply or_else_truthy.
              ** intros [[e He] | (res' & e & Hr & He)]; [discriminate He|].
                 injection Hr as <-. congruence.
           ++ do 3 (split; [reflexivity|]). split; [|split].
              ** intros Ht. discriminate Ht.
              ** intros res' _ _. by split.
              ** intros _. by split.
      * cbn [fst snd weatherData weatherError weatherLoading weatherCity].
        do 3 (split; [reflexivity|]). split; [|split].
        -- intros Ht. discriminate Ht.
        -- intros res' _ _. by split.
        -- intros _. by split.
    + cbn [fst snd weatherData weatherError weatherLoading weatherCity].
      do 3 (split; [reflexivity|]). split; [|split].
      * intros Ht. discriminate Ht.
      * intros res' Hr. discriminate Hr.
      * intros _. by split.
Qed.

Lemma fetchWeather_outcome_witness :
  let w := Sample.browser Sample.offline in
  let ws := {| weatherCity := lit "Colombo"; weatherData := Null;
               weatherLoading := false; weatherError := Str [] |} in
  let answer := λ _ : weather_post,
    Ok {| ok := false; json := Ok (Obj [(lit "error", Str (lit "city not found"))]) |} in
  weatherData (fetchWeather w answer ws).1 = Null ∧
  truthy (weatherError (fetchWeather w answer ws).1) = true.
Proof.
  intros w ws answer.
  assert (Hne : trim (weatherCity ws) ≠ []) by discriminate.
  destruct (proj2 (fetchWeather_outcome w answer ws) Hne) as (_ & _ & _ & _ & Hfail & _).
  exact (Hfail _ eq_refl eq_refl).
Defined.

End WidgetExtras.
